(** * Segment aggregation service: a shallow embedding and its properties

    This development embeds [cloud/backend/aggregator.py],
    [cloud/backend/cache.py] and the handlers of [cloud/backend/main.py] that
    compute on the service, and states the properties of the aggregation core
    over that embedding.

    Modelling conventions.
    - A Python [float] is a [pyfloat]: an exact rational or one of the IEEE
      special values (+inf, -inf, nan).  Arithmetic on finite values is exact
      (rounding is not modelled, and neither is the sign of zero); the special
      values follow IEEE 754, which is what NumPy does on [float64] arrays:
      division by zero does not raise, it yields an infinity or nan.
      A finite sum or product is never rounded to an infinity here, whereas
      on [float64] it overflows beyond about 1.8e308: two confidences of
      1e308 sum to +inf, the normalized weights are then [0, 0] and
      [np.average] raises [ZeroDivisionError], after [add_sample] has
      appended the sample and set [last_updated].  Confidences in [0,1]
      cannot overflow (a window sums to at most 10), and neither can a window
      of one sample (its weight is [c / c]); what an ingest returns, and the
      aggregate and expiry it stores, are stated on these domains.
    - A [datetime] is an integer number of microseconds, a [timedelta] too;
      both are unbounded ([timedelta(days = d)] raises beyond 999999999
      days, which is not modelled).
    - A method is a computation in the monad [M S]: it reads the clock
      ([datetime.utcnow()]), reads and writes its object [self : S], and
      either returns or raises.  One call observes one clock value.
    - The [dict] of buffers is a finite map keyed by strings; the order in
      which it is iterated is the map's, which no property here depends on.
    - Calls to the logger are left out.

    The embedding comes first; then what each method computes, as lemmas
    ([..._run]); then the properties, one section per claim (C1 .. C10); then
    further properties of the service, the mirror and the handlers
    (X1 .. X18). *)

From Stdlib Require Import ZArith QArith Qreduction Qabs Lia Lqa.
From stdpp Require Import base gmap strings list fin_maps.

Local Open Scope Z_scope.

(** ** Python floats *)

Inductive pyfloat : Type :=
  | Fin (q : Q)
  | PInf
  | NInf
  | NaN.

(** Finite results are kept in lowest terms, so that equal numbers are equal
    terms. *)
Definition fin (q : Q) : pyfloat := Fin (Qred q).

Definition fadd (x y : pyfloat) : pyfloat :=
  match x, y with
  | NaN, _ | _, NaN => NaN
  | Fin a, Fin b => fin (a + b)
  | PInf, NInf | NInf, PInf => NaN
  | PInf, _ | _, PInf => PInf
  | NInf, _ | _, NInf => NInf
  end.

Definition finf_of_sign (c : comparison) : pyfloat :=
  match c with
  | Gt => PInf
  | Lt => NInf
  | Eq => NaN
  end.

Definition fmul (x y : pyfloat) : pyfloat :=
  match x, y with
  | NaN, _ | _, NaN => NaN
  | Fin a, Fin b => fin (a * b)
  | Fin a, PInf | PInf, Fin a => finf_of_sign (a ?= 0)%Q
  | Fin a, NInf | NInf, Fin a => finf_of_sign (0 ?= a)%Q
  | PInf, PInf | NInf, NInf => PInf
  | PInf, NInf | NInf, PInf => NInf
  end.

(** [x / y] on float64 values (NumPy's [true_divide]): never raises. *)
Definition fdiv (x y : pyfloat) : pyfloat :=
  match x, y with
  | NaN, _ | _, NaN => NaN
  | Fin a, Fin b =>
      if Qeq_bool b 0 then finf_of_sign (a ?= 0)%Q else fin (a / b)
  | Fin _, (PInf | NInf) => Fin 0
  | (PInf | NInf), (PInf | NInf) => NaN
  | PInf, Fin b => match (b ?= 0)%Q with Lt => NInf | _ => PInf end
  | NInf, Fin b => match (b ?= 0)%Q with Lt => PInf | _ => NInf end
  end.

(** [x == 0.0] *)
Definition feq0 (x : pyfloat) : bool :=
  match x with
  | Fin q => Qeq_bool q 0
  | _ => false
  end.

(** [len(l)] as a float. *)
Definition float_of_nat (n : nat) : pyfloat := fin (inject_Z (Z.of_nat n)).

(** [x - y] *)
Definition fsub (x y : pyfloat) : pyfloat :=
  match x, y with
  | NaN, _ | _, NaN => NaN
  | Fin a, Fin b => fin (a - b)
  | PInf, PInf | NInf, NInf => NaN
  | PInf, _ | _, NInf => PInf
  | NInf, _ | _, PInf => NInf
  end.

(** [x > y]: false as soon as one side is nan. *)
Definition fgt (x y : pyfloat) : bool :=
  match x, y with
  | NaN, _ | _, NaN => false
  | Fin a, Fin b => match (a ?= b)%Q with Gt => true | _ => false end
  | PInf, PInf | NInf, _ | _, PInf => false
  | PInf, _ | _, NInf => true
  end.

(** ** Exceptions and the method monad *)

Inductive exn : Type :=
  | ZeroDivisionError
  | KeyError.

Inductive result (A : Type) : Type :=
  | Ok (a : A)
  | Raise (e : exn).
Arguments Ok {A} a.
Arguments Raise {A} e.

(** Microseconds since the epoch, and durations in microseconds. *)
Definition datetime : Type := Z.
Definition timedelta : Type := Z.
Definition timedelta_days (d : Z) : timedelta := d * 86400 * 1000000.
Definition timedelta_seconds (s : Z) : timedelta := s * 1000000.

(** A method on an object of type [S] returning an [A]: it is run at a clock
    value, from a state of [self], and gives a result and the new state.
    An exception keeps the mutations done before it. *)
Definition M (S A : Type) : Type := datetime -> S -> result A * S.

#[global] Instance M_ret {S} : MRet (M S) :=
  fun A a _ s => (Ok a, s).

#[global] Instance M_bind {S} : MBind (M S) :=
  fun A B f m now s =>
    match m now s with
    | (Ok a, s') => f a now s'
    | (Raise e, s') => (Raise e, s')
    end.

#[global] Instance M_fmap {S} : FMap (M S) :=
  fun A B f m now s =>
    match m now s with
    | (Ok a, s') => (Ok (f a), s')
    | (Raise e, s') => (Raise e, s')
    end.

Definition raise {S A} (e : exn) : M S A := fun _ s => (Raise e, s).
Definition utcnow {S} : M S datetime := fun now s => (Ok now, s).
Definition get_self {S} : M S S := fun _ s => (Ok s, s).
Definition modify_self {S} (f : S -> S) : M S unit := fun _ s => (Ok tt, f s).
Definition lift_result {S A} (r : result A) : M S A := fun _ s => (r, s).

(** Loops over a list whose body is a method call: a comprehension with a
    condition, a comprehension, and a [for] statement. *)
Fixpoint filter_M {S A} (p : A -> M S bool) (l : list A) : M S (list A) :=
  match l with
  | [] => mret []
  | x :: l' =>
      keep ← p x;
      rest ← filter_M p l';
      mret (if keep : bool then x :: rest else rest)
  end.

Fixpoint map_M {S A B} (f : A -> M S B) (l : list A) : M S (list B) :=
  match l with
  | [] => mret []
  | x :: l' =>
      y ← f x;
      rest ← map_M f l';
      mret (y :: rest)
  end.

Fixpoint for_each {S A} (l : list A) (body : A -> M S unit) : M S unit :=
  match l with
  | [] => mret tt
  | x :: l' => body x;; for_each l' body
  end.

(** A [for] statement that updates a local variable. *)
Fixpoint for_fold {S A B} (l : list A) (acc : B) (body : B -> A -> M S B) : M S B :=
  match l with
  | [] => mret acc
  | x :: l' => acc' ← body acc x; for_fold l' acc' body
  end.

(** ** The NumPy calls the aggregator makes *)

(** [np.sum(a)] *)
Definition np_sum (a : list pyfloat) : pyfloat := foldr fadd (Fin 0) a.

(** [a / s] for an array [a] and a scalar [s] *)
Definition np_divide (a : list pyfloat) (s : pyfloat) : list pyfloat :=
  map (fun x => fdiv x s) a.

(** [np.multiply(a, b)] for arrays of one length *)
Definition np_multiply (a b : list pyfloat) : list pyfloat :=
  zip_with fmul a b.

(** [np.average(a, weights=w)]: raises when the weights sum to zero, else
    divides the weighted sum by the sum of the weights. *)
Definition np_average (a w : list pyfloat) : result pyfloat :=
  let scl := np_sum w in
  if feq0 scl then Raise ZeroDivisionError
  else Ok (fdiv (np_sum (np_multiply a w)) scl).

(** [np.mean(a)] *)
Definition np_mean (a : list pyfloat) : pyfloat :=
  fdiv (np_sum a) (float_of_nat (length a)).

(** Python's [a / b] on ints. *)
Definition int_truediv (a b : Z) : result pyfloat :=
  if b =? 0 then Raise ZeroDivisionError
  else Ok (fin (inject_Z a / inject_Z b)).

(** Python's [x / y] on floats (an int divisor is converted first): unlike
    NumPy's, it raises on a zero divisor. *)
Definition float_truediv (x y : pyfloat) : result pyfloat :=
  if feq0 y then Raise ZeroDivisionError else Ok (fdiv x y).

(** The builtin [sum(l)]: from 0, left to right. *)
Definition py_sum (l : list pyfloat) : pyfloat := foldl fadd (Fin 0) l.

(** ** [collections.deque] with a [maxlen] *)

Record deque (A : Type) : Type := mk_deque {
  maxlen : nat;
  items : list A
}.
Arguments mk_deque {A} maxlen items.
Arguments maxlen {A} d.
Arguments items {A} d.

(** [d.append(x)]: the element goes to the right end; a deque longer than its
    [maxlen] then drops its leftmost element. *)
Definition deque_append {A} (x : A) (d : deque A) : deque A :=
  let l := items d ++ [x] in
  mk_deque (maxlen d) (if (maxlen d <? length l)%nat then tail l else l).

(** [l[:limit]] *)
Definition slice_to {A} (limit : Z) (l : list A) : list A :=
  if 0 <=? limit then take (Z.to_nat limit) l
  else take (length l - Z.to_nat (- limit)) l.

(** ** [VehicleSample] *)

Record VehicleSample : Type := mk_VehicleSample {
  comfort_score : pyfloat;
  confidence : pyfloat;
  vehicle_id : string;
  timestamp : datetime;
  speed : pyfloat;
  heading : pyfloat
}.

(** ** [SegmentBuffer] *)

Module SegmentBuffer.

Record t : Type := mk {
  segment_id : string;
  samples : deque VehicleSample;
  aggregated_score : pyfloat;
  last_updated : datetime;
  expires_at : option datetime
}.

Definition set_samples (v : deque VehicleSample) (b : t) : t :=
  mk (segment_id b) v (aggregated_score b) (last_updated b) (expires_at b).
Definition set_aggregated_score (v : pyfloat) (b : t) : t :=
  mk (segment_id b) (samples b) v (last_updated b) (expires_at b).
Definition set_last_updated (v : datetime) (b : t) : t :=
  mk (segment_id b) (samples b) (aggregated_score b) v (expires_at b).
Definition set_expires_at (v : option datetime) (b : t) : t :=
  mk (segment_id b) (samples b) (aggregated_score b) (last_updated b) v.

(** [SegmentBuffer(segment_id=...)]: the field defaults, with the clock read by
    the default factory of [last_updated]. *)
Definition new (segment_id : string) (now : datetime) : t :=
  mk segment_id (mk_deque 10 []) (Fin (1 # 2)) now None.

Definition _update_aggregation : M t unit :=
  self ← get_self;
  match items (samples self) with
  | [] => modify_self (set_aggregated_score (Fin (1 # 2)))
  | _ =>
      let scores := map comfort_score (items (samples self)) in
      let weights := map confidence (items (samples self)) in
      let weights := np_divide weights (np_sum weights) in
      avg ← lift_result (np_average scores weights);
      modify_self (set_aggregated_score avg);;
      self ← get_self;
      modify_self (set_expires_at (Some (last_updated self + timedelta_days 30)))
  end.

Definition add_sample (sample : VehicleSample) : M t unit :=
  modify_self (fun self => set_samples (deque_append sample (samples self)) self);;
  now ← utcnow;
  modify_self (set_last_updated now);;
  _update_aggregation.

Definition is_valid : M t bool :=
  self ← get_self;
  match expires_at self with
  | None => mret false
  | Some e => now ← utcnow; mret (now <? e)
  end.

Definition is_finalized : M t bool :=
  self ← get_self;
  mret (10 <=? length (items (samples self)))%nat.

Definition sample_count : M t nat :=
  self ← get_self;
  mret (length (items (samples self))).

Definition average_confidence : M t pyfloat :=
  self ← get_self;
  match items (samples self) with
  | [] => mret (Fin 0)
  | _ => mret (np_mean (map confidence (items (samples self))))
  end.

End SegmentBuffer.

(** ** The dictionaries the service returns *)

Module SegmentScore.
Record t : Type := mk {
  segment_id : string;
  comfort_score : pyfloat;
  sample_count : nat;
  confidence : pyfloat;
  last_updated : datetime;
  expires_at : option datetime;
  is_valid : bool;
  is_finalized : bool
}.
End SegmentScore.

Module Prediction.
Record t : Type := mk {
  vehicle_id : string;
  comfort_score : pyfloat;
  confidence : pyfloat;
  timestamp : datetime;
  speed : pyfloat;
  heading : pyfloat
}.
End Prediction.

Module Stats.
Record t : Type := mk {
  total_segments : nat;
  valid_segments : nat;
  finalized_segments : nat;
  avg_samples_per_segment : pyfloat;
  avg_comfort_score : pyfloat;
  finalization_rate : pyfloat
}.
End Stats.

(** ** [AggregationService] *)

Module AggregationService.

Record t : Type := mk {
  BUFFER_LIMIT : Z;
  TTL : timedelta;
  buffers : gmap string SegmentBuffer.t
}.

Definition set_buffers (f : gmap string SegmentBuffer.t -> gmap string SegmentBuffer.t)
    (self : t) : t :=
  mk (BUFFER_LIMIT self) (TTL self) (f (buffers self)).

(** [AggregationService(segment_buffer_limit, ttl_days)]; both default to the
    values the module docstring names, 10 and 30. *)
Definition __init__ (segment_buffer_limit ttl_days : Z) : t :=
  mk segment_buffer_limit (timedelta_days ttl_days) ∅.

Definition default_service : t := __init__ 10 30.

(** A method call [self.buffers[segment_id].m(...)]: the buffer object is
    looked up (a missing key raises), the method runs on it, and what it did to
    the object is seen through the dictionary afterwards. *)
Definition on_buffer {A} (segment_id : string) (m : M SegmentBuffer.t A) : M t A :=
  fun now self =>
    match buffers self !! segment_id with
    | Some buffer =>
        let (r, buffer') := m now buffer in
        (r, set_buffers (insert segment_id buffer') self)
    | None => (Raise KeyError, self)
    end.

(** [del self.buffers[seg_id]] *)
Definition del_buffer (seg_id : string) : M t unit :=
  self ← get_self;
  match buffers self !! seg_id with
  | Some _ => modify_self (set_buffers (delete seg_id))
  | None => raise KeyError
  end.

(** [self.buffers.items()], as the keys in iteration order. *)
Definition buffer_ids : M t (list string) :=
  self ← get_self;
  mret (map fst (map_to_list (buffers self))).

Definition ingest_prediction (segment_id : string) (comfort_score confidence : pyfloat)
    (vehicle_id : string) (speed heading : pyfloat) (timestamp : option datetime)
    : M t (pyfloat * nat * bool) :=
  timestamp ← match timestamp with
               | None => utcnow
               | Some ts => mret ts
               end;
  self ← get_self;
  match buffers self !! segment_id with
  | None =>
      now ← utcnow;
      modify_self (set_buffers (insert segment_id (SegmentBuffer.new segment_id now)))
  | Some _ => mret tt
  end;;
  let sample :=
    mk_VehicleSample comfort_score confidence vehicle_id timestamp speed heading in
  on_buffer segment_id (SegmentBuffer.add_sample sample);;
  is_finalized ← on_buffer segment_id SegmentBuffer.is_finalized;
  aggregated_score ← on_buffer segment_id (SegmentBuffer.aggregated_score <$> get_self);
  sample_count ← on_buffer segment_id SegmentBuffer.sample_count;
  mret (aggregated_score, sample_count, is_finalized).

(** The dictionary both [get_segment_score] and [get_all_segments] build. *)
Definition segment_dict (segment_id : string) : M t SegmentScore.t :=
  comfort_score ← on_buffer segment_id (SegmentBuffer.aggregated_score <$> get_self);
  sample_count ← on_buffer segment_id SegmentBuffer.sample_count;
  confidence ← on_buffer segment_id SegmentBuffer.average_confidence;
  last_updated ← on_buffer segment_id (SegmentBuffer.last_updated <$> get_self);
  expires_at ← on_buffer segment_id (SegmentBuffer.expires_at <$> get_self);
  is_valid ← on_buffer segment_id SegmentBuffer.is_valid;
  is_finalized ← on_buffer segment_id SegmentBuffer.is_finalized;
  mret (SegmentScore.mk segment_id comfort_score sample_count confidence
          last_updated expires_at is_valid is_finalized).

Definition get_segment_score (segment_id : string) : M t (option SegmentScore.t) :=
  self ← get_self;
  match buffers self !! segment_id with
  | None => mret None
  | Some _ => Some <$> segment_dict segment_id
  end.

Definition get_all_segments (include_invalid include_finalized_only : bool)
    : M t (list SegmentScore.t) :=
  ids ← buffer_ids;
  for_fold ids [] (fun results segment_id =>
    skip ← (if include_finalized_only
            then negb <$> on_buffer segment_id SegmentBuffer.is_finalized
            else mret false);
    if skip : bool then mret results
    else
      skip ← (if negb include_invalid
              then negb <$> on_buffer segment_id SegmentBuffer.is_valid
              else mret false);
      if skip : bool then mret results
      else
        d ← segment_dict segment_id;
        mret (results ++ [d])).

Definition prediction_dict (s : VehicleSample) : Prediction.t :=
  Prediction.mk (vehicle_id s) (comfort_score s) (confidence s) (timestamp s)
    (speed s) (heading s).

Definition get_recent_predictions (segment_id : string) (limit : Z)
    : M t (list Prediction.t) :=
  self ← get_self;
  match buffers self !! segment_id with
  | None => mret []
  | Some _ =>
      samples ← on_buffer segment_id (SegmentBuffer.samples <$> get_self);
      mret (map prediction_dict (slice_to limit (items samples)))
  end.

Definition cleanup_expired : M t nat :=
  ids ← buffer_ids;
  expired_ids ← filter_M (fun seg_id =>
                   negb <$> on_buffer seg_id SegmentBuffer.is_valid) ids;
  for_each expired_ids del_buffer;;
  mret (length expired_ids).

Definition get_stats : M t Stats.t :=
  all_segments ← buffer_ids;
  valid_segments ← filter_M (fun b => on_buffer b SegmentBuffer.is_valid) all_segments;
  finalized ← filter_M (fun b => on_buffer b SegmentBuffer.is_finalized) valid_segments;
  avg_samples ← match valid_segments with
                 | [] => mret (Fin 0)
                 | _ =>
                     counts ← map_M (fun b => on_buffer b SegmentBuffer.sample_count)
                                valid_segments;
                     mret (np_mean (map float_of_nat counts))
                 end;
  avg_comfort ← match valid_segments with
                 | [] => mret (Fin (1 # 2))
                 | _ =>
                     scores ← map_M (fun b =>
                                 on_buffer b (SegmentBuffer.aggregated_score <$> get_self))
                                valid_segments;
                     mret (np_mean scores)
                 end;
  rate ← match valid_segments with
          | [] => mret (Fin 0)
          | _ => lift_result (int_truediv (Z.of_nat (length finalized))
                                (Z.of_nat (length valid_segments)))
          end;
  mret (Stats.mk (length all_segments) (length valid_segments) (length finalized)
          avg_samples avg_comfort rate).

End AggregationService.

(** ** [CacheManager]: the two methods on the query path

    An entry stores its instants in ISO format and parses them back; the model
    keeps the instants themselves. *)

Module CacheManager.

Record entry : Type := mk_entry {
  comfort_score : pyfloat;
  sample_count : nat;
  confidence : pyfloat;
  cached_at : datetime;
  expires_at : datetime
}.

Record t : Type := mk {
  backend : string;
  ttl_seconds : Z;
  cache : gmap string entry
}.

Definition set_cache (f : gmap string entry -> gmap string entry) (self : t) : t :=
  mk (backend self) (ttl_seconds self) (f (cache self)).

Definition __init__ (backend : string) (ttl_seconds : Z) : t :=
  mk backend ttl_seconds ∅.

Definition update_segment (segment_id : string) (comfort_score : pyfloat)
    (sample_count : nat) (confidence : pyfloat) : M t unit :=
  self ← get_self;
  now ← utcnow;
  modify_self (set_cache (insert segment_id
    (mk_entry comfort_score sample_count confidence now
       (now + timedelta_seconds (ttl_seconds self))))).

Definition get_segment (segment_id : string) : M t (option entry) :=
  self ← get_self;
  match cache self !! segment_id with
  | None => mret None
  | Some entry =>
      now ← utcnow;
      if expires_at entry <? now
      then modify_self (set_cache (delete segment_id));; mret None
      else mret (Some entry)
  end.

(** [del self.cache[key]] *)
Definition del_entry (key : string) : M t unit :=
  self ← get_self;
  match cache self !! key with
  | Some _ => modify_self (set_cache (delete key))
  | None => raise KeyError
  end.

Definition clear : M t unit :=
  modify_self (set_cache (fun _ => ∅)).

Definition size : M t nat :=
  self ← get_self;
  mret (base.size (cache self)).

Definition cleanup_expired : M t nat :=
  self ← get_self;
  expired_keys ← for_fold (map_to_list (cache self)) []
    (fun expired_keys item =>
       now ← utcnow;
       if expires_at (snd item) <? now then mret (expired_keys ++ [fst item])
       else mret expired_keys);
  for_each expired_keys del_entry;;
  mret (length expired_keys).

Definition is_available : M t bool := mret true.

Definition get_all : M t (gmap string entry) :=
  self ← get_self;
  for_fold (map_to_list (cache self)) ∅
    (fun valid item =>
       now ← utcnow;
       if now <=? expires_at (snd item) then mret (<[fst item := snd item]> valid)
       else mret valid).

End CacheManager.

(** ** Histories of the service *)

(** One call of [ingest_prediction]: the clock when it runs and its arguments
    other than the segment. *)
Record call : Type := mk_call {
  call_time : datetime;
  call_score : pyfloat;
  call_confidence : pyfloat;
  call_vehicle : string;
  call_speed : pyfloat;
  call_heading : pyfloat;
  call_timestamp : option datetime
}.

(** The state-changing operations of the service. *)
Inductive op : Type :=
  | Ingest (segment_id : string) (c : call)
  | Cleanup (now : datetime).

Definition run_ingest (segment_id : string) (c : call)
    : AggregationService.t -> result (pyfloat * nat * bool) * AggregationService.t :=
  AggregationService.ingest_prediction segment_id (call_score c) (call_confidence c)
    (call_vehicle c) (call_speed c) (call_heading c) (call_timestamp c) (call_time c).

Definition run_op (o : op) (self : AggregationService.t) : AggregationService.t :=
  match o with
  | Ingest segment_id c => snd (run_ingest segment_id c self)
  | Cleanup now => snd (AggregationService.cleanup_expired now self)
  end.

Definition run_trace (tr : list op) (self : AggregationService.t) : AggregationService.t :=
  foldl (fun s o => run_op o s) self tr.

(** The states a service goes through: from its construction, by any calls. *)
Definition reachable (self : AggregationService.t) : Prop :=
  exists limit ttl_days tr, self = run_trace tr (AggregationService.__init__ limit ttl_days).

Definition ingested_key (o : op) : option string :=
  match o with
  | Ingest segment_id _ => Some segment_id
  | Cleanup _ => None
  end.

(** The sample a call stores. *)
Definition sample_of (c : call) : VehicleSample :=
  mk_VehicleSample (call_score c) (call_confidence c) (call_vehicle c)
    (default (call_time c) (call_timestamp c)) (call_speed c) (call_heading c).

(** ** What the methods compute, as functions of the state *)

Definition valid_at (now : datetime) (b : SegmentBuffer.t) : bool :=
  match SegmentBuffer.expires_at b with
  | None => false
  | Some e => now <? e
  end.

Definition finalized (b : SegmentBuffer.t) : bool :=
  (10 <=? length (items (SegmentBuffer.samples b)))%nat.

Definition window (b : SegmentBuffer.t) : list VehicleSample :=
  items (SegmentBuffer.samples b).

Definition mean_confidence (b : SegmentBuffer.t) : pyfloat :=
  match window b with
  | [] => Fin 0
  | _ => np_mean (map confidence (window b))
  end.

(** The dictionary a query builds from a buffer. *)
Definition score_of (now : datetime) (k : string) (b : SegmentBuffer.t) : SegmentScore.t :=
  SegmentScore.mk k (SegmentBuffer.aggregated_score b) (length (window b))
    (mean_confidence b) (SegmentBuffer.last_updated b) (SegmentBuffer.expires_at b)
    (valid_at now b) (finalized b).

(** The buffers [get_all_segments] keeps. *)
Definition listed (include_invalid include_finalized_only : bool) (now : datetime)
    (b : SegmentBuffer.t) : bool :=
  negb (include_finalized_only && negb (finalized b)) &&
  negb (negb include_invalid && negb (valid_at now b)).

(** The entries of the service, those valid at [now], the finalized ones among
    the valid, and those a cleanup at [now] removes. *)
Definition entries (self : AggregationService.t) : list (string * SegmentBuffer.t) :=
  map_to_list (AggregationService.buffers self).

Definition valid_entries (now : datetime) (self : AggregationService.t)
    : list (string * SegmentBuffer.t) :=
  List.filter (fun kb => valid_at now (snd kb)) (entries self).

Definition finalized_entries (now : datetime) (self : AggregationService.t)
    : list (string * SegmentBuffer.t) :=
  List.filter (fun kb => finalized (snd kb)) (valid_entries now self).

Definition expired_entries (now : datetime) (self : AggregationService.t)
    : list (string * SegmentBuffer.t) :=
  List.filter (fun kb => negb (valid_at now (snd kb))) (entries self).

(** The dictionary [get_stats] builds. *)
Definition stats_of (now : datetime) (self : AggregationService.t) : Stats.t :=
  let valid := valid_entries now self in
  let final := finalized_entries now self in
  Stats.mk (length (entries self)) (length valid) (length final)
    match valid with
    | [] => Fin 0
    | _ => np_mean (map (fun kb => float_of_nat (length (window (snd kb)))) valid)
    end
    match valid with
    | [] => Fin (1 # 2)
    | _ => np_mean (map (fun kb => SegmentBuffer.aggregated_score (snd kb)) valid)
    end
    match valid with
    | [] => Fin 0
    | _ => fin (inject_Z (Z.of_nat (length final)) / inject_Z (Z.of_nat (length valid)))
    end.

(** Removing a list of keys from the dictionary, one [del] after the other. *)
Definition delete_all (l : list string) (m : gmap string SegmentBuffer.t)
    : gmap string SegmentBuffer.t :=
  foldl (fun m k => delete k m) m l.

(** The value [_update_aggregation] stores for a non-empty window. *)
Definition aggregate_of (l : list VehicleSample) : pyfloat :=
  let weights := map confidence l in
  let weights := np_divide weights (np_sum weights) in
  fdiv (np_sum (np_multiply (map comfort_score l) weights)) (np_sum weights).

(** The buffer after [add_sample sample] at clock [now]. *)
Definition added (sample : VehicleSample) (now : datetime) (b : SegmentBuffer.t)
    : SegmentBuffer.t :=
  let d := deque_append sample (SegmentBuffer.samples b) in
  match items d with
  | [] => SegmentBuffer.mk (SegmentBuffer.segment_id b) d (Fin (1 # 2)) now
            (SegmentBuffer.expires_at b)
  | _ => SegmentBuffer.mk (SegmentBuffer.segment_id b) d (aggregate_of (items d)) now
           (Some (now + timedelta_days 30))
  end.

(** The buffer of [k] after the call [c] ingests to [k]. *)
Definition ingested (k : string) (c : call) (self : AggregationService.t)
    : SegmentBuffer.t :=
  added (sample_of c) (call_time c)
    (default (SegmentBuffer.new k (call_time c)) (AggregationService.buffers self !! k)).

(** The last [n] elements of a list. *)
Definition lastn {A} (n : nat) (l : list A) : list A := drop (length l - n) l.

(** What holds of every buffer of a reachable service. *)
Definition wf_buffer (k : string) (b : SegmentBuffer.t) : Prop :=
  SegmentBuffer.segment_id b = k /\
  maxlen (SegmentBuffer.samples b) = 10%nat /\
  (1 <= length (window b) <= 10)%nat /\
  SegmentBuffer.aggregated_score b = aggregate_of (window b) /\
  SegmentBuffer.expires_at b = Some (SegmentBuffer.last_updated b + timedelta_days 30).

Definition wf (self : AggregationService.t) : Prop :=
  forall k b, AggregationService.buffers self !! k = Some b -> wf_buffer k b.

(** ** The weighted mean, as the specification words it *)

Definition Qsum (l : list Q) : Q := foldr Qplus 0%Q l.

Definition qval (x : pyfloat) : Q :=
  match x with
  | Fin q => q
  | _ => 0%Q
  end.

Definition is_fin (x : pyfloat) : bool :=
  match x with
  | Fin _ => true
  | _ => false
  end.

Definition score_q (s : VehicleSample) : Q := qval (comfort_score s).
Definition conf_q (s : VehicleSample) : Q := qval (confidence s).

(** Each sample's confidence, normalized to sum 1 over the window. *)
Definition normalized_weights (l : list VehicleSample) : list Q :=
  let total := Qsum (map conf_q l) in
  map (fun s => (conf_q s / total)%Q) l.

(** The mean of the scores under the normalized weights. *)
Definition weighted_mean (l : list VehicleSample) : Q :=
  Qsum (zip_with Qmult (normalized_weights l) (map score_q l)).

(** A float is a finite number in [lo, hi]. *)
Definition in_range (lo hi : Q) (x : pyfloat) : Prop :=
  match x with
  | Fin q => (lo <= q /\ q <= hi)%Q
  | _ => False
  end.

(** [x] is a finite number within [tol] of [d]. *)
Definition approx (tol d : Q) (x : pyfloat) : Prop :=
  match x with
  | Fin q => (Qabs (q - d) <= tol)%Q
  | _ => False
  end.

(** [x] is [d] when rounded to three decimals. *)
Definition approx3 (d : Q) (x : pyfloat) : Prop := approx (1 # 2000) d x.

(** An observation as the data model has it: score and confidence in [0,1]. *)
Definition observation (c : call) : Prop :=
  in_range 0 1 (call_score c) /\ in_range 0 1 (call_confidence c).

Definition finite_sample (s : VehicleSample) : Prop :=
  is_fin (comfort_score s) = true /\ is_fin (confidence s) = true.

(** A computation that ended in an exception. *)
Definition raised {A S} (r : result A * S) : Prop :=
  exists e, fst r = Raise e.

(** The stored aggregate of [k] after the calls [cs] ingest to it. *)
Definition aggregate_after (k : string) (cs : list call) (self : AggregationService.t)
    : option pyfloat :=
  SegmentBuffer.aggregated_score <$>
    AggregationService.buffers (run_trace (map (Ingest k) cs) self) !! k.

(** ** Histories of observations *)

(** An operation that, if it ingests, ingests an observation. *)
Definition observed_op (o : op) : Prop :=
  match o with
  | Ingest _ c => observation c
  | Cleanup _ => True
  end.

(** The states a service goes through when every ingest carries an
    observation: there no sum of confidences overflows, so no ingest raises
    and every ingest recomputes the aggregate and the expiry. *)
Definition observed (self : AggregationService.t) : Prop :=
  exists limit ttl_days tr,
    Forall observed_op tr /\
    self = run_trace tr (AggregationService.__init__ limit ttl_days).

(** ** Inputs used in the examples *)

Definition plain_call (now : datetime) (score confidence : Q) : call :=
  mk_call now (Fin score) (Fin confidence) "vehicle" (Fin 0) (Fin 0) None.

(** Scores [0.7, 0.8, 0.6] with confidences [0.9, 0.95, 0.8]. *)
Definition example_calls : list call :=
  [plain_call 1 (7 # 10) (9 # 10); plain_call 2 (8 # 10) (95 # 100);
   plain_call 3 (6 # 10) (8 # 10)].

(** Eleven calls with scores 0.01 .. 0.11 and confidence 1. *)
Definition eleven_calls : list call :=
  map (fun i => plain_call (Z.of_nat i) (Z.of_nat i # 100) 1) (seq 1 11).

Definition is_ingest (o : op) : Prop :=
  match o with
  | Ingest _ _ => True
  | Cleanup _ => False
  end.

(** The buffer stored for [k] (a new one if there is none). *)
Definition buffer_of (k : string) (self : AggregationService.t) : SegmentBuffer.t :=
  default (SegmentBuffer.new k 0) (AggregationService.buffers self !! k).

(** A service after ten inserts to one key, and one after a single insert at
    clock 1. *)
Definition full_service : AggregationService.t :=
  run_trace (map (Ingest "seg_001") (take 10 eleven_calls))
    AggregationService.default_service.

Definition one_call_service : AggregationService.t :=
  run_trace [Ingest "seg_001" (plain_call 1 (7 # 10) (9 # 10))]
    AggregationService.default_service.

(** A service constructed with a time to live of one day, after a single
    insert at clock 0. *)
Definition one_day_service : AggregationService.t :=
  run_trace [Ingest "seg_001" (plain_call 0 (7 # 10) (9 # 10))]
    (AggregationService.__init__ 10 1).

(** ** The handlers of [main.py] that compute on the service

    The service the handlers use is the module's global [agg_service]; here it
    is the state of the computation. *)

(** [score_to_color], the function both listing handlers define. *)
Definition score_to_color (score : pyfloat) : string :=
  if fgt score (Fin (7 # 10)) then "green"
  else if fgt score (Fin (4 # 10)) then "yellow"
  else "red".

Module SegmentDetail.
Record t : Type := mk {
  segment_id : string;
  comfort_score : pyfloat;
  comfort_cost : pyfloat;
  time_cost : pyfloat;
  known : bool
}.
End SegmentDetail.

Module RouteEvaluation.
Record t : Type := mk {
  total_cost : pyfloat;
  time_cost : pyfloat;
  comfort_cost : pyfloat;
  average_comfort : pyfloat;
  segments : list SegmentDetail.t
}.
End RouteEvaluation.

(** The local variables the loop of [evaluate_route] updates. *)
Record route_locals : Type := mk_route_locals {
  segment_details : list SegmentDetail.t;
  total_comfort_cost : pyfloat;
  total_time_cost : pyfloat;
  comfort_scores : list pyfloat
}.

(** One turn of the loop of [evaluate_route]. *)
Definition evaluate_segment (locals : route_locals) (segment_id : string)
    : M AggregationService.t route_locals :=
  segment_data ← AggregationService.get_segment_score segment_id;
  let comfort_score :=
    match segment_data with
    | Some d => SegmentScore.comfort_score d
    | None => Fin (1 # 2)
    end in
  let comfort_cost :=
    match segment_data with
    | Some d => fsub (Fin 1) comfort_score
    | None => Fin (1 # 2)
    end in
  let time_cost := Fin 1 in
  mret (mk_route_locals
          (segment_details locals ++
             [SegmentDetail.mk segment_id comfort_score comfort_cost time_cost
                (bool_decide (is_Some segment_data))])
          (fadd (total_comfort_cost locals) comfort_cost)
          (fadd (total_time_cost locals) time_cost)
          (comfort_scores locals ++ [comfort_score])).

Definition evaluate_route (segments : list string) (time_weight comfort_weight : pyfloat)
    : M AggregationService.t RouteEvaluation.t :=
  locals ← for_fold segments (mk_route_locals [] (Fin 0) (Fin 0) []) evaluate_segment;
  let n_segments :=
    match segments with
    | [] => 1%nat
    | _ => length segments
    end in
  avg_time_cost ← lift_result
    (float_truediv (total_time_cost locals) (float_of_nat n_segments));
  avg_comfort_cost ← lift_result
    (float_truediv (total_comfort_cost locals) (float_of_nat n_segments));
  let total_cost :=
    fadd (fmul avg_time_cost time_weight) (fmul avg_comfort_cost comfort_weight) in
  avg_comfort ← match comfort_scores locals with
                 | [] => mret (Fin (1 # 2))
                 | _ => lift_result
                          (float_truediv (py_sum (comfort_scores locals))
                             (float_of_nat (length (comfort_scores locals))))
                 end;
  mret (RouteEvaluation.mk total_cost avg_time_cost avg_comfort_cost avg_comfort
          (segment_details locals)).

(** What a handler ends in: a response, an [HTTPException] it raises, or an
    exception it lets through. *)
Inductive response (A : Type) : Type :=
  | Respond (a : A)
  | HTTPException (status_code : Z)
  | Unhandled (e : exn).
Arguments Respond {A} a.
Arguments HTTPException {A} status_code.
Arguments Unhandled {A} e.

Module History.
Record t : Type := mk {
  segment_id : string;
  predictions : list Prediction.t;
  count : nat
}.
End History.

Definition get_segment_history (segment_id : string) (limit : Z) (now : datetime)
    (agg_service : AggregationService.t)
    : response History.t * AggregationService.t :=
  match AggregationService.get_recent_predictions segment_id limit now agg_service with
  | (Ok predictions, agg_service') =>
      match predictions with
      | [] => (HTTPException 404, agg_service')
      | _ => (Respond (History.mk segment_id predictions (length predictions)),
              agg_service')
      end
  | (Raise e, agg_service') => (Unhandled e, agg_service')
  end.

(** ** Notions used to state the further properties *)

(** The colours from worst to best. *)
Definition color_rank (color : string) : nat :=
  if decide (color = "green") then 2
  else if decide (color = "yellow") then 1
  else 0.

(** A sample with a score in [0,1] and a confidence in (0,1]. *)
Definition weighted_sample (s : VehicleSample) : Prop :=
  in_range 0 1 (comfort_score s) /\ in_range 0 1 (confidence s) /\
  feq0 (confidence s) = false.

(** An operation that, if it ingests, ingests such a sample. *)
Definition weighted_op (o : op) : Prop :=
  match o with
  | Ingest _ c => weighted_sample (sample_of c)
  | Cleanup _ => True
  end.

(** What [evaluate_route] takes for a segment: its score (the stored
    aggregate, 0.5 when the segment is unknown), its comfort cost and the
    detail it reports. *)
Definition route_score (self : AggregationService.t) (segment_id : string) : pyfloat :=
  match AggregationService.buffers self !! segment_id with
  | Some b => SegmentBuffer.aggregated_score b
  | None => Fin (1 # 2)
  end.

Definition route_cost (self : AggregationService.t) (segment_id : string) : pyfloat :=
  match AggregationService.buffers self !! segment_id with
  | Some b => fsub (Fin 1) (SegmentBuffer.aggregated_score b)
  | None => Fin (1 # 2)
  end.

Definition route_detail (self : AggregationService.t) (segment_id : string)
    : SegmentDetail.t :=
  SegmentDetail.mk segment_id (route_score self segment_id) (route_cost self segment_id)
    (Fin 1) (bool_decide (is_Some (AggregationService.buffers self !! segment_id))).

(** The mean of the scores [evaluate_route] takes for a route. *)
Definition route_mean (self : AggregationService.t) (segments : list string) : Q :=
  (Qsum (map (fun k => qval (route_score self k)) segments) /
   inject_Z (Z.of_nat (length segments)))%Q.

(** Removing a list of keys from a dictionary of any values. *)
Definition delete_keys {V} (l : list string) (m : gmap string V) : gmap string V :=
  foldl (fun m k => delete k m) m l.

(** An entry of the mirror is still served at [now]. *)
Definition entry_valid_at (now : datetime) (e : CacheManager.entry) : bool :=
  now <=? CacheManager.expires_at e.

(** The entry [update_segment] writes at [now] under [ttl_seconds]. *)
Definition written_entry (comfort_score : pyfloat) (sample_count : nat)
    (confidence : pyfloat) (ttl_seconds : Z) (now : datetime) : CacheManager.entry :=
  CacheManager.mk_entry comfort_score sample_count confidence now
    (now + timedelta_seconds ttl_seconds).

(** A mirror holding one entry for ["seg_001"], written at clock 0 with a
    time to live of 10 seconds. *)
Definition one_entry_cache : CacheManager.t :=
  snd (CacheManager.update_segment "seg_001" (Fin (1 # 2)) 1 (Fin 0) 0
         (CacheManager.__init__ "memory" 10)).

(** Unfolding the monad's operations in a goal. *)
Ltac run_M :=
  cbv beta iota zeta delta [mbind mret fmap M_bind M_ret M_fmap get_self modify_self
    utcnow raise lift_result].

Import AggregationService.

(** ** Arithmetic of floats *)

Section Floats.

Lemma fin_eq (p q : Q) : (p == q)%Q -> fin p = fin q.
Proof. intros H. unfold fin. f_equal. now apply Qred_complete. Qed.

Lemma is_fin_fadd (x y : pyfloat) : is_fin (fadd x y) = is_fin x && is_fin y.
Proof. destruct x, y; reflexivity. Qed.

Lemma is_fin_np_sum (l : list pyfloat) : is_fin (np_sum l) = forallb is_fin l.
Proof.
  induction l as [|x l IH]; [reflexivity|].
  change (np_sum (x :: l)) with (fadd x (np_sum l)).
  rewrite is_fin_fadd, IH. reflexivity.
Qed.

Lemma feq0_not_fin (x : pyfloat) : is_fin x = false -> feq0 x = false.
Proof. destruct x; [discriminate | reflexivity ..]. Qed.

Lemma is_fin_finf_of_sign (c : comparison) : is_fin (finf_of_sign c) = false.
Proof. destruct c; reflexivity. Qed.

(** Dividing by a zero or by a special value, or dividing a special value:
    the quotient of anything that is not finite is not finite, and nothing
    divided by zero is finite. *)
Lemma is_fin_fdiv_zero (x : pyfloat) (b : Q) :
  Qeq_bool b 0 = true -> is_fin (fdiv x (Fin b)) = false.
Proof.
  intros Hb. destruct x as [a| | |]; simpl.
  - rewrite Hb. apply is_fin_finf_of_sign.
  - apply Qeq_bool_iff in Hb. rewrite Hb. reflexivity.
  - apply Qeq_bool_iff in Hb. rewrite Hb. reflexivity.
  - reflexivity.
Qed.

Lemma is_fin_fdiv_special (x y : pyfloat) :
  is_fin x = false -> is_fin y = false -> is_fin (fdiv x y) = false.
Proof. destruct x, y; try discriminate; reflexivity. Qed.

Lemma fdiv_nan_r (x : pyfloat) : fdiv x NaN = NaN.
Proof. destruct x; reflexivity. Qed.

Lemma np_sum_fin (qs : list Q) : np_sum (map Fin qs) = fin (Qsum qs).
Proof.
  induction qs as [|q qs IH]; [reflexivity|].
  change (np_sum (map Fin (q :: qs))) with (fadd (Fin q) (np_sum (map Fin qs))).
  rewrite IH. simpl. apply fin_eq. rewrite Qred_correct. reflexivity.
Qed.

Lemma forallb_is_fin (l : list pyfloat) :
  forallb is_fin l = true -> l = map Fin (map qval l).
Proof.
  induction l as [|x l IH]; [reflexivity|]. simpl.
  intros [Hx Hl]%andb_true_iff. rewrite <- IH by exact Hl.
  destruct x; try discriminate. reflexivity.
Qed.

Lemma Qsum_div (qs : list Q) (s : Q) :
  (Qsum (map (fun c => c / s) qs) == Qsum qs / s)%Q.
Proof.
  induction qs as [|q qs IH]; simpl.
  - unfold Qdiv. ring.
  - rewrite IH. unfold Qdiv. ring.
Qed.

Lemma np_sum_fins (qs : list Q) : np_sum (map fin qs) = fin (Qsum qs).
Proof.
  induction qs as [|q qs IH]; [reflexivity|].
  change (np_sum (map fin (q :: qs))) with (fadd (fin q) (np_sum (map fin qs))).
  rewrite IH. simpl. apply fin_eq. rewrite !Qred_correct. reflexivity.
Qed.

End Floats.

Section Average.

Lemma forallb_false_map {A} (f : A -> bool) (g : A -> A) (l : list A) :
  (forall x, f x = false -> f (g x) = false) ->
  forallb f l = false -> forallb f (map g l) = false.
Proof.
  intros Hg. induction l as [|x l IH]; simpl; [discriminate|].
  intros [Hx|Hl]%andb_false_iff.
  - rewrite (Hg _ Hx). reflexivity.
  - rewrite (IH Hl). apply andb_false_r.
Qed.

Lemma forallb_all_false {A} (f : A -> bool) (g : A -> A) (l : list A) :
  l <> [] -> (forall x, f (g x) = false) -> forallb f (map g l) = false.
Proof. destruct l as [|x l]; [congruence|]. intros _ H. simpl. rewrite H. reflexivity. Qed.

Lemma feq0_fin_one (q : Q) : (q == 1)%Q -> feq0 (fin q) = false.
Proof.
  intros H. unfold fin, feq0. apply not_true_is_false. intros E%Qeq_bool_iff.
  rewrite Qred_correct, H in E. discriminate.
Qed.

(** In exact arithmetic the normalized weights of a non-empty window never
    sum to zero, so NumPy's check in [average] passes.  (On [float64] they can,
    once the sum of the weights has overflowed.) *)
Lemma normalized_sum_nonzero (w : list pyfloat) :
  w <> [] -> feq0 (np_sum (np_divide w (np_sum w))) = false.
Proof.
  intros Hne. destruct (is_fin (np_sum w)) eqn:Hfin.
  - pose proof Hfin as Hall. rewrite is_fin_np_sum in Hall.
    apply forallb_is_fin in Hall. set (qs := map qval w) in *.
    rewrite Hall. rewrite np_sum_fin. unfold fin.
    destruct (Qeq_bool (Qred (Qsum qs)) 0) eqn:Hz.
    + apply feq0_not_fin. rewrite is_fin_np_sum. unfold np_divide.
      apply forallb_all_false.
      * rewrite Hall in Hne. destruct qs; simpl in *; congruence.
      * intros x. now apply is_fin_fdiv_zero.
    + unfold np_divide. rewrite map_map. simpl. rewrite Hz.
      rewrite <- (map_map (fun c => (c / Qred (Qsum qs))%Q) fin).
      rewrite np_sum_fins. apply feq0_fin_one.
      rewrite Qsum_div, Qred_correct. field.
      intros E. rewrite <- (Qred_correct (Qsum qs)) in E.
      apply Qeq_bool_iff in E. congruence.
  - apply feq0_not_fin. rewrite is_fin_np_sum. unfold np_divide.
    apply forallb_false_map.
    + intros x Hx. now apply is_fin_fdiv_special.
    + now rewrite <- is_fin_np_sum.
Qed.

Lemma np_average_normalized (a w : list pyfloat) :
  w <> [] ->
  np_average a (np_divide w (np_sum w)) =
  Ok (fdiv (np_sum (np_multiply a (np_divide w (np_sum w))))
        (np_sum (np_divide w (np_sum w)))).
Proof. intros H. unfold np_average. now rewrite normalized_sum_nonzero. Qed.

End Average.

(** ** The buffer methods *)

Section BufferMethods.

Variables (now : datetime) (b : SegmentBuffer.t).

Lemma is_valid_run : SegmentBuffer.is_valid now b = (Ok (valid_at now b), b).
Proof.
  unfold SegmentBuffer.is_valid, valid_at. run_M.
  destruct (SegmentBuffer.expires_at b); reflexivity.
Qed.

Lemma is_finalized_run : SegmentBuffer.is_finalized now b = (Ok (finalized b), b).
Proof. reflexivity. Qed.

Lemma sample_count_run : SegmentBuffer.sample_count now b = (Ok (length (window b)), b).
Proof. reflexivity. Qed.

Lemma average_confidence_run :
  SegmentBuffer.average_confidence now b = (Ok (mean_confidence b), b).
Proof.
  unfold SegmentBuffer.average_confidence, mean_confidence, window. run_M.
  destruct (items (SegmentBuffer.samples b)); reflexivity.
Qed.

Lemma update_aggregation_run :
  SegmentBuffer._update_aggregation now b =
  (Ok tt,
   match window b with
   | [] => SegmentBuffer.set_aggregated_score (Fin (1 # 2)) b
   | _ => SegmentBuffer.set_expires_at
            (Some (SegmentBuffer.last_updated b + timedelta_days 30))
            (SegmentBuffer.set_aggregated_score (aggregate_of (window b)) b)
   end).
Proof.
  unfold SegmentBuffer._update_aggregation, window. run_M.
  destruct (items (SegmentBuffer.samples b)) as [|s l] eqn:E; [reflexivity|].
  rewrite np_average_normalized by discriminate. reflexivity.
Qed.

End BufferMethods.

Lemma add_sample_run (now : datetime) (b : SegmentBuffer.t) (sample : VehicleSample) :
  SegmentBuffer.add_sample sample now b = (Ok tt, added sample now b).
Proof.
  unfold SegmentBuffer.add_sample. run_M. rewrite update_aggregation_run.
  unfold added, window. destruct b as [k d a lu ex]. simpl.
  destruct (if (maxlen d <? length (items d ++ [sample]))%nat
            then tail (items d ++ [sample]) else items d ++ [sample]);
    reflexivity.
Qed.

Section ServiceMethods.

Lemma on_buffer_run {A} (k : string) (m : M SegmentBuffer.t A) now self b :
  buffers self !! k = Some b ->
  on_buffer k m now self =
  (fst (m now b), set_buffers (insert k (snd (m now b))) self).
Proof. intros H. unfold on_buffer. rewrite H. destruct (m now b); reflexivity. Qed.

(** A method that leaves its buffer as it was leaves the service as it was. *)
Lemma on_buffer_readonly {A} (k : string) (m : M SegmentBuffer.t A) now self b a :
  buffers self !! k = Some b ->
  m now b = (Ok a, b) ->
  on_buffer k m now self = (Ok a, self).
Proof.
  intros H Hm. rewrite (on_buffer_run _ _ _ _ _ H), Hm. simpl. f_equal.
  destruct self as [lim ttl bs]. unfold set_buffers. simpl in *.
  f_equal. now apply insert_id.
Qed.

Lemma on_buffer_field {A} (f : SegmentBuffer.t -> A) (k : string) now self b :
  buffers self !! k = Some b ->
  on_buffer k (f <$> get_self) now self = (Ok (f b), self).
Proof. intros H. now apply on_buffer_readonly with b. Qed.

Lemma ingest_prediction_run (k : string) (score conf : pyfloat) (vid : string)
    (speed heading : pyfloat) (ts : option datetime) (now : datetime) (self : t) :
  let sample := mk_VehicleSample score conf vid (default now ts) speed heading in
  let b := added sample now (default (SegmentBuffer.new k now) (buffers self !! k)) in
  ingest_prediction k score conf vid speed heading ts now self =
  (Ok (SegmentBuffer.aggregated_score b, length (window b), finalized b),
   set_buffers (insert k b) self).
Proof.
  intros sample b.
  assert (Hstep : forall self' b0, buffers self' !! k = Some b0 ->
            set_buffers (insert k (added sample now b0)) self' =
            set_buffers (insert k b) self ->
            b = added sample now b0 ->
     (on_buffer k (SegmentBuffer.add_sample sample);;
      is_finalized ← on_buffer k SegmentBuffer.is_finalized;
      aggregated_score ← on_buffer k (SegmentBuffer.aggregated_score <$> get_self);
      sample_count ← on_buffer k SegmentBuffer.sample_count;
      mret (aggregated_score, sample_count, is_finalized)) now self' =
     (Ok (SegmentBuffer.aggregated_score b, length (window b), finalized b),
      set_buffers (insert k b) self)).
  { intros self' b0 H0 Hst Hb.
    assert (Hk : buffers (set_buffers (insert k b) self) !! k = Some b)
      by (destruct self; simpl; apply lookup_insert_eq).
    unfold mbind at 1, M_bind.
    rewrite (on_buffer_run _ _ _ _ _ H0), add_sample_run. simpl. rewrite Hst.
    unfold mbind at 1, M_bind.
    rewrite (on_buffer_readonly _ _ _ _ _ _ Hk (is_finalized_run _ _)).
    unfold mbind at 1, M_bind.
    rewrite (on_buffer_field _ _ _ _ _ Hk).
    unfold mbind at 1, M_bind.
    rewrite (on_buffer_readonly _ _ _ _ _ _ Hk (sample_count_run _ _)).
    reflexivity. }
  unfold ingest_prediction.
  assert (Hts : forall (K : datetime -> M t (pyfloat * nat * bool)),
            (match ts with None => utcnow | Some ts' => mret ts' end ≫= K) now self
            = K (default now ts) now self).
  { intros K. destruct ts; reflexivity. }
  rewrite Hts. unfold mbind at 1, M_bind, get_self.
  destruct (buffers self !! k) as [b0|] eqn:E.
  - unfold mbind at 1, M_bind, mret at 1, M_ret. apply (Hstep self b0 E); reflexivity.
  - unfold mbind at 1, M_bind. unfold mbind at 1, M_bind, utcnow, modify_self.
    apply (Hstep _ (SegmentBuffer.new k now)).
    + destruct self; simpl. apply lookup_insert_eq.
    + destruct self; unfold set_buffers; simpl. f_equal. apply insert_insert_eq.
    + reflexivity.
Qed.

End ServiceMethods.

Section Reads.

Variables (now : datetime) (self : t).

Lemma segment_dict_run (k : string) (b : SegmentBuffer.t) :
  buffers self !! k = Some b ->
  segment_dict k now self = (Ok (score_of now k b), self).
Proof.
  intros H. unfold segment_dict.
  unfold mbind at 1, M_bind. rewrite (on_buffer_field _ _ _ _ _ H).
  unfold mbind at 1, M_bind.
  rewrite (on_buffer_readonly _ _ _ _ _ _ H (sample_count_run _ _)).
  unfold mbind at 1, M_bind.
  rewrite (on_buffer_readonly _ _ _ _ _ _ H (average_confidence_run _ _)).
  unfold mbind at 1, M_bind. rewrite (on_buffer_field _ _ _ _ _ H).
  unfold mbind at 1, M_bind. rewrite (on_buffer_field _ _ _ _ _ H).
  unfold mbind at 1, M_bind.
  rewrite (on_buffer_readonly _ _ _ _ _ _ H (is_valid_run _ _)).
  unfold mbind at 1, M_bind.
  rewrite (on_buffer_readonly _ _ _ _ _ _ H (is_finalized_run _ _)).
  reflexivity.
Qed.

Lemma get_segment_score_run (k : string) :
  get_segment_score k now self = (Ok (score_of now k <$> buffers self !! k), self).
Proof.
  unfold get_segment_score. unfold mbind, M_bind, get_self.
  destruct (buffers self !! k) as [b|] eqn:E; [|reflexivity].
  unfold fmap at 1, M_fmap. rewrite (segment_dict_run _ _ E). reflexivity.
Qed.

Lemma get_recent_predictions_run (k : string) (limit : Z) :
  get_recent_predictions k limit now self =
  (Ok (match buffers self !! k with
       | None => []
       | Some b => map prediction_dict (slice_to limit (window b))
       end), self).
Proof.
  unfold get_recent_predictions. unfold mbind at 1, M_bind, get_self.
  destruct (buffers self !! k) as [b|] eqn:E; [|reflexivity].
  unfold mbind at 1, M_bind. rewrite (on_buffer_field _ _ _ _ _ E). reflexivity.
Qed.

(** Loops whose body reads the buffer it is given. *)
Lemma filter_M_buffers (p : string -> M t bool) (f : SegmentBuffer.t -> bool)
    (l : list (string * SegmentBuffer.t)) :
  (forall k b, (k, b) ∈ l -> buffers self !! k = Some b) ->
  (forall k b, buffers self !! k = Some b -> p k now self = (Ok (f b), self)) ->
  filter_M p (map fst l) now self =
  (Ok (map fst (List.filter (fun kb => f (snd kb)) l)), self).
Proof.
  intros Hl Hp. induction l as [|[k b] l IH]; [reflexivity|].
  simpl. unfold mbind at 1, M_bind.
  rewrite (Hp k b) by (apply Hl; left).
  unfold mbind at 1, M_bind. rewrite IH by (intros; apply Hl; now right).
  unfold mret, M_ret. destruct (f b); reflexivity.
Qed.

Lemma map_M_buffers {B} (g : string -> M t B) (h : string -> SegmentBuffer.t -> B)
    (l : list (string * SegmentBuffer.t)) :
  (forall k b, (k, b) ∈ l -> buffers self !! k = Some b) ->
  (forall k b, buffers self !! k = Some b -> g k now self = (Ok (h k b), self)) ->
  map_M g (map fst l) now self = (Ok (map (fun kb => h (fst kb) (snd kb)) l), self).
Proof.
  intros Hl Hg. induction l as [|[k b] l IH]; [reflexivity|].
  simpl. unfold mbind at 1, M_bind.
  rewrite (Hg k b) by (apply Hl; left).
  unfold mbind at 1, M_bind. rewrite IH by (intros; apply Hl; now right).
  reflexivity.
Qed.

Lemma entries_lookup (k : string) (b : SegmentBuffer.t) :
  (k, b) ∈ map_to_list (buffers self) -> buffers self !! k = Some b.
Proof. apply elem_of_map_to_list. Qed.

Lemma filter_entries_lookup (f : string * SegmentBuffer.t -> bool) k b :
  (k, b) ∈ List.filter f (map_to_list (buffers self)) -> buffers self !! k = Some b.
Proof.
  intros H. apply entries_lookup. apply list_elem_of_In in H.
  apply filter_In in H as [H _]. now apply list_elem_of_In.
Qed.

Lemma get_all_segments_loop (include_invalid include_finalized_only : bool)
    (l : list (string * SegmentBuffer.t)) (acc : list SegmentScore.t) :
  (forall k b, (k, b) ∈ l -> buffers self !! k = Some b) ->
  for_fold (map fst l) acc (fun results segment_id =>
    skip ← (if include_finalized_only
            then negb <$> on_buffer segment_id SegmentBuffer.is_finalized
            else mret false);
    if skip : bool then mret results
    else
      skip ← (if negb include_invalid
              then negb <$> on_buffer segment_id SegmentBuffer.is_valid
              else mret false);
      if skip : bool then mret results
      else
        d ← segment_dict segment_id;
        mret (results ++ [d])) now self =
  (Ok (acc ++ map (fun kb => score_of now (fst kb) (snd kb))
         (List.filter (fun kb => listed include_invalid include_finalized_only now (snd kb))
            l)), self).
Proof.
  revert acc. induction l as [|[k b] l IH]; intros acc Hl.
  - simpl. rewrite app_nil_r. reflexivity.
  - assert (Hb : buffers self !! k = Some b) by (apply Hl; left).
    assert (Hl' : forall k b, (k, b) ∈ l -> buffers self !! k = Some b)
      by (intros; apply Hl; now right).
    simpl map. cbn [for_fold]. unfold mbind at 1, M_bind.
    cbn [List.filter snd]. unfold listed at 1.
    unfold mbind at 1, M_bind.
    destruct include_finalized_only; simpl.
    + unfold fmap at 1, M_fmap.
      rewrite (on_buffer_readonly _ _ _ _ _ _ Hb (is_finalized_run _ _)).
      destruct (finalized b); simpl; [|now apply IH].
      unfold mbind at 1, M_bind.
      destruct include_invalid; simpl.
      * unfold mbind at 1, M_bind. rewrite (segment_dict_run _ _ Hb). simpl.
        rewrite IH by assumption. now rewrite <- app_assoc.
      * unfold fmap at 1, M_fmap.
        rewrite (on_buffer_readonly _ _ _ _ _ _ Hb (is_valid_run _ _)).
        destruct (valid_at now b); simpl; [|now apply IH].
        unfold mbind at 1, M_bind. rewrite (segment_dict_run _ _ Hb). simpl.
        rewrite IH by assumption. now rewrite <- app_assoc.
    + unfold mbind at 1, M_bind.
      destruct include_invalid; simpl.
      * unfold mbind at 1, M_bind. rewrite (segment_dict_run _ _ Hb). simpl.
        rewrite IH by assumption. now rewrite <- app_assoc.
      * unfold fmap at 1, M_fmap.
        rewrite (on_buffer_readonly _ _ _ _ _ _ Hb (is_valid_run _ _)).
        destruct (valid_at now b); simpl; [|now apply IH].
        unfold mbind at 1, M_bind. rewrite (segment_dict_run _ _ Hb). simpl.
        rewrite IH by assumption. now rewrite <- app_assoc.
Qed.

Lemma get_all_segments_run (include_invalid include_finalized_only : bool) :
  get_all_segments include_invalid include_finalized_only now self =
  (Ok (map (fun kb => score_of now (fst kb) (snd kb))
         (List.filter (fun kb => listed include_invalid include_finalized_only now (snd kb))
            (map_to_list (buffers self)))), self).
Proof.
  unfold get_all_segments, buffer_ids.
  unfold mbind at 1, M_bind. unfold mbind at 1, M_bind, get_self, mret at 1, M_ret.
  rewrite get_all_segments_loop by apply entries_lookup. reflexivity.
Qed.

End Reads.

Section Cleanup.

Lemma lookup_delete_all (l : list string) (m : gmap string SegmentBuffer.t) (k : string) :
  delete_all l m !! k = if decide (k ∈ l) then None else m !! k.
Proof.
  revert m. induction l as [|x l IH]; intros m; simpl.
  - destruct (decide (k ∈ [])) as [H|]; [inversion H | reflexivity].
  - rewrite IH. destruct (decide (k ∈ l)) as [Hin|Hnin].
    + rewrite decide_True by now right. reflexivity.
    + destruct (decide (k = x)) as [->|Hne].
      * rewrite decide_True by left. apply lookup_delete_eq.
      * rewrite decide_False by (intros [?|?]%elem_of_cons; contradiction).
        now apply lookup_delete_ne.
Qed.

Lemma size_delete_all (l : list string) (m : gmap string SegmentBuffer.t) :
  NoDup l -> (forall k, k ∈ l -> is_Some (m !! k)) ->
  (size (delete_all l m) + length l = size m)%nat.
Proof.
  revert m. induction l as [|x l IH]; intros m Hnd Hin; simpl; [lia|].
  apply NoDup_cons in Hnd as [Hx Hnd].
  destruct (Hin x) as [b Hb]; [left|].
  rewrite Nat.add_succ_r, IH; [|assumption|].
  - rewrite map_size_delete_Some by eauto.
    assert (size m <> 0)%nat by (apply map_size_ne_0_lookup_2 with x; eauto). lia.
  - intros k Hk. rewrite lookup_delete_ne by (intros ->; contradiction).
    apply Hin. now right.
Qed.

Lemma for_each_del (l : list string) (now : datetime) (self : t) :
  NoDup l -> (forall k, k ∈ l -> is_Some (buffers self !! k)) ->
  for_each l del_buffer now self = (Ok tt, set_buffers (delete_all l) self).
Proof.
  revert self. induction l as [|x l IH]; intros self Hnd Hin.
  - destruct self; reflexivity.
  - apply NoDup_cons in Hnd as [Hx Hnd]. simpl.
    unfold mbind at 1, M_bind. unfold del_buffer at 1.
    unfold mbind at 1, M_bind, get_self.
    destruct (Hin x) as [b Hb]; [left|]. rewrite Hb. unfold modify_self.
    rewrite IH; [destruct self; reflexivity | assumption |].
    intros k Hk. destruct self; simpl in *.
    rewrite lookup_delete_ne by (intros ->; contradiction).
    apply Hin. now right.
Qed.

Lemma NoDup_fst_filter {A B} (f : A * B -> bool) (l : list (A * B)) :
  NoDup (map fst l) -> NoDup (map fst (List.filter f l)).
Proof.
  induction l as [|x l IH]; simpl; [auto|].
  intros [Hx Hnd]%NoDup_cons. destruct (f x); simpl; [|auto].
  apply NoDup_cons. split; [|auto].
  intros Hin. apply Hx. apply list_elem_of_In, in_map_iff in Hin as [y [Hy Hin]].
  apply list_elem_of_In, in_map_iff. exists y. split; [assumption|].
  now apply filter_In in Hin as [? _].
Qed.

Lemma elem_of_fst_filter (f : SegmentBuffer.t -> bool) (m : gmap string SegmentBuffer.t)
    (k : string) :
  k ∈ map fst (List.filter (fun kb => f (snd kb)) (map_to_list m)) <->
  exists b, m !! k = Some b /\ f b = true.
Proof.
  rewrite list_elem_of_In, in_map_iff. split.
  - intros [[k' b] [<- [Hin Hf]%filter_In]]. exists b. split; [|assumption].
    now apply elem_of_map_to_list, list_elem_of_In.
  - intros [b [Hb Hf]]. exists (k, b). split; [reflexivity|].
    apply filter_In. split; [|assumption].
    now apply list_elem_of_In, elem_of_map_to_list.
Qed.

(** Deleting the expired keys one by one leaves the valid entries. *)
Lemma delete_expired_entries (now : datetime) (self : t) :
  delete_all (map fst (expired_entries now self)) (buffers self) =
  filter (fun kb => valid_at now (snd kb) = true) (buffers self).
Proof.
  apply map_eq. intros k. rewrite lookup_delete_all.
  unfold expired_entries, entries.
  destruct (decide (k ∈ _)) as [Hin|Hnin].
  - apply (elem_of_fst_filter (fun b => negb (valid_at now b))) in Hin
      as [b [Hb Hf]].
    symmetry. apply map_lookup_filter_None. right. intros b' Hb'. simpl.
    rewrite Hb in Hb'. injection Hb' as <-. apply negb_true_iff in Hf. congruence.
  - destruct (buffers self !! k) as [b|] eqn:Hb.
    + symmetry. apply map_lookup_filter_Some. split; [assumption|]. simpl.
      destruct (valid_at now b) eqn:Hv; [reflexivity|].
      exfalso. apply Hnin.
      apply (elem_of_fst_filter (fun b => negb (valid_at now b))).
      exists b. now rewrite Hv.
    + symmetry. apply map_lookup_filter_None. now left.
Qed.

Lemma expired_ids_NoDup (now : datetime) (self : t) :
  NoDup (map fst (expired_entries now self)).
Proof. apply NoDup_fst_filter. apply NoDup_fst_map_to_list. Qed.

Lemma expired_ids_present (now : datetime) (self : t) (k : string) :
  k ∈ map fst (expired_entries now self) -> is_Some (buffers self !! k).
Proof.
  intros Hk.
  apply (elem_of_fst_filter (fun b => negb (valid_at now b))) in Hk as [b [Hb _]].
  eauto.
Qed.

Lemma cleanup_expired_run (now : datetime) (self : t) :
  cleanup_expired now self =
  (Ok (length (expired_entries now self)),
   set_buffers (filter (fun kb => valid_at now (snd kb) = true)) self).
Proof.
  unfold cleanup_expired, buffer_ids.
  unfold mbind at 1, M_bind. unfold mbind at 1, M_bind, get_self, mret at 1, M_ret.
  unfold mbind at 1, M_bind.
  rewrite (filter_M_buffers now self _ (fun b => negb (valid_at now b))).
  2: apply entries_lookup.
  2: { intros k b H. unfold fmap, M_fmap.
       now rewrite (on_buffer_readonly _ _ _ _ _ _ H (is_valid_run _ _)). }
  fold (entries self). fold (expired_entries now self).
  unfold mbind at 1, M_bind.
  rewrite for_each_del by (apply expired_ids_NoDup || apply expired_ids_present).
  unfold mret, M_ret. rewrite length_map. f_equal.
  pose proof (delete_expired_entries now self) as E.
  destruct self as [lim ttl m]. unfold set_buffers. simpl in *. now rewrite E.
Qed.

(** The sweep's count and what it leaves add up to what there was. *)
Lemma cleanup_count_size (now : datetime) (self : t) :
  (length (expired_entries now self) +
   size (filter (fun kb => valid_at now (snd kb) = true) (buffers self)) =
   size (buffers self))%nat.
Proof.
  rewrite <- delete_expired_entries, Nat.add_comm.
  rewrite <- (length_map fst (expired_entries now self)).
  apply size_delete_all; [apply expired_ids_NoDup | apply expired_ids_present].
Qed.

End Cleanup.

Section StatsRun.

Variables (now : datetime) (self : t).

Lemma get_stats_run : get_stats now self = (Ok (stats_of now self), self).
Proof.
  unfold get_stats, buffer_ids.
  unfold mbind at 1, M_bind. unfold mbind at 1, M_bind, get_self, mret at 1, M_ret.
  unfold mbind at 1, M_bind.
  rewrite (filter_M_buffers now self _ (valid_at now)).
  2: apply entries_lookup.
  2: { intros k b H. apply (on_buffer_readonly _ _ _ _ _ _ H (is_valid_run _ _)). }
  unfold mbind at 1, M_bind.
  rewrite (filter_M_buffers now self _ finalized).
  2: apply filter_entries_lookup.
  2: { intros k b H. apply (on_buffer_readonly _ _ _ _ _ _ H (is_finalized_run _ _)). }
  unfold stats_of. fold (entries self). fold (valid_entries now self).
  fold (finalized_entries now self).
  assert (Hv : forall k b, (k, b) ∈ valid_entries now self -> buffers self !! k = Some b)
    by apply filter_entries_lookup.
  rewrite !length_map.
  generalize dependent (finalized_entries now self). intros final.
  generalize dependent (valid_entries now self). intros valid Hv.
  destruct valid as [|kb valid]; [reflexivity|].
  change (map fst (kb :: valid)) with (fst kb :: map fst valid).
  cbv iota. change (fst kb :: map fst valid) with (map fst (kb :: valid)).
  unfold mbind at 1, M_bind. unfold mbind at 1, M_bind.
  rewrite (map_M_buffers now self _ (fun _ b => length (window b)) (kb :: valid) Hv).
  2: { intros k b H. apply (on_buffer_readonly _ _ _ _ _ _ H (sample_count_run _ _)). }
  unfold mret at 1, M_ret.
  unfold mbind at 1, M_bind. unfold mbind at 1, M_bind.
  rewrite (map_M_buffers now self _ (fun _ b => SegmentBuffer.aggregated_score b)
             (kb :: valid) Hv).
  2: { intros k b H. now apply on_buffer_field. }
  unfold mret at 1, M_ret.
  unfold mbind at 1, M_bind, lift_result, int_truediv.
  replace (Z.of_nat (length (kb :: valid)) =? 0) with false
    by (symmetry; apply Z.eqb_neq; simpl; lia).
  unfold mret, M_ret. rewrite map_map. reflexivity.
Qed.

End StatsRun.

(** ** The window as a ring *)

Section Window.

Context {A : Type}.
Implicit Types (l : list A) (x : A).

Lemma lastn_short n l : (length l <= n)%nat -> lastn n l = l.
Proof. intros H. unfold lastn. replace (length l - n)%nat with 0%nat by lia. reflexivity. Qed.

Lemma length_lastn n l : length (lastn n l) = Nat.min n (length l).
Proof. unfold lastn. rewrite length_drop. lia. Qed.

Lemma tail_drop l : tail l = drop 1 l.
Proof. destruct l; reflexivity. Qed.

(** Appending to a deque whose content is the last [n] elements of a history
    gives the last [n] elements of the longer history. *)
Lemma lastn_snoc n l x :
  (1 <= n)%nat ->
  (if (n <? length (lastn n l ++ [x]))%nat
   then tail (lastn n l ++ [x]) else lastn n l ++ [x]) = lastn n (l ++ [x]).
Proof.
  intros Hn. rewrite length_app, length_lastn. simpl.
  destruct (Nat.ltb_spec n (Nat.min n (length l) + 1)) as [H|H].
  - unfold lastn. rewrite tail_drop, length_app. simpl.
    replace (length l + 1 - n)%nat with ((length l - n) + 1)%nat by lia.
    rewrite <- drop_drop. rewrite (drop_app_le l) by lia. reflexivity.
  - rewrite !lastn_short; [reflexivity | rewrite length_app; simpl; lia | lia].
Qed.

End Window.

Section Added.

Variables (sample : VehicleSample) (now : datetime) (b : SegmentBuffer.t).

Lemma samples_added :
  SegmentBuffer.samples (added sample now b) =
  deque_append sample (SegmentBuffer.samples b).
Proof.
  unfold added. destruct (items (deque_append sample (SegmentBuffer.samples b)));
    reflexivity.
Qed.

Lemma window_added :
  window (added sample now b) =
  if (maxlen (SegmentBuffer.samples b) <? length (window b ++ [sample]))%nat
  then tail (window b ++ [sample]) else window b ++ [sample].
Proof. unfold window. rewrite samples_added. reflexivity. Qed.

Lemma maxlen_added :
  maxlen (SegmentBuffer.samples (added sample now b)) = maxlen (SegmentBuffer.samples b).
Proof. rewrite samples_added. reflexivity. Qed.

Lemma segment_id_added :
  SegmentBuffer.segment_id (added sample now b) = SegmentBuffer.segment_id b.
Proof.
  unfold added. destruct (items (deque_append sample (SegmentBuffer.samples b)));
    reflexivity.
Qed.

Lemma last_updated_added : SegmentBuffer.last_updated (added sample now b) = now.
Proof.
  unfold added. destruct (items (deque_append sample (SegmentBuffer.samples b)));
    reflexivity.
Qed.

Lemma window_added_nonempty :
  (1 <= maxlen (SegmentBuffer.samples b))%nat -> window (added sample now b) <> [].
Proof.
  intros H. rewrite window_added. rewrite length_app. simpl.
  destruct (Nat.ltb_spec (maxlen (SegmentBuffer.samples b)) (length (window b) + 1)).
  - destruct (window b) as [|x [|y l]]; simpl in *; try discriminate. lia.
  - destruct (window b); discriminate.
Qed.

Lemma aggregated_score_added :
  (1 <= maxlen (SegmentBuffer.samples b))%nat ->
  SegmentBuffer.aggregated_score (added sample now b) =
  aggregate_of (window (added sample now b)).
Proof.
  intros H. pose proof (window_added_nonempty H) as Hne. revert Hne.
  unfold window. rewrite samples_added. unfold added.
  destruct (items (deque_append sample (SegmentBuffer.samples b)));
    [congruence | reflexivity].
Qed.

Lemma expires_at_added :
  (1 <= maxlen (SegmentBuffer.samples b))%nat ->
  SegmentBuffer.expires_at (added sample now b) = Some (now + timedelta_days 30).
Proof.
  intros H. pose proof (window_added_nonempty H) as Hne. revert Hne.
  unfold window. rewrite samples_added. unfold added.
  destruct (items (deque_append sample (SegmentBuffer.samples b)));
    [congruence | reflexivity].
Qed.

Lemma length_window_added :
  maxlen (SegmentBuffer.samples b) = 10%nat -> (length (window b) <= 10)%nat ->
  length (window (added sample now b)) = Nat.min 10 (length (window b) + 1).
Proof.
  intros Hm Hl. rewrite window_added, Hm, length_app.
  change (length [sample]) with 1%nat.
  destruct (Nat.ltb_spec 10 (length (window b) + 1)).
  - rewrite tail_drop, length_drop, length_app.
    change (length [sample]) with 1%nat. lia.
  - rewrite length_app. change (length [sample]) with 1%nat. lia.
Qed.

Lemma wf_buffer_added (k : string) :
  SegmentBuffer.segment_id b = k ->
  maxlen (SegmentBuffer.samples b) = 10%nat ->
  (length (window b) <= 10)%nat ->
  wf_buffer k (added sample now b).
Proof.
  intros Hk Hm Hl. unfold wf_buffer.
  rewrite segment_id_added, maxlen_added, last_updated_added.
  rewrite aggregated_score_added, expires_at_added by lia.
  rewrite length_window_added by assumption. repeat split; try assumption; lia.
Qed.

End Added.

(** ** Histories *)

Section Histories.

Lemma run_ingest_eq (k : string) (c : call) (self : t) :
  run_ingest k c self =
  (Ok (SegmentBuffer.aggregated_score (ingested k c self),
       length (window (ingested k c self)), finalized (ingested k c self)),
   set_buffers (insert k (ingested k c self)) self).
Proof. unfold run_ingest. rewrite ingest_prediction_run. reflexivity. Qed.

Lemma buffers_run_ingest (k : string) (c : call) (self : t) :
  buffers (run_op (Ingest k c) self) = <[k := ingested k c self]> (buffers self).
Proof. simpl. rewrite run_ingest_eq. reflexivity. Qed.

Lemma buffers_run_cleanup (now : datetime) (self : t) :
  buffers (run_op (Cleanup now) self) =
  filter (fun kb => valid_at now (snd kb) = true) (buffers self).
Proof. simpl. rewrite cleanup_expired_run. reflexivity. Qed.

Lemma run_trace_cons (o : op) (tr : list op) (self : t) :
  run_trace (o :: tr) self = run_trace tr (run_op o self).
Proof. reflexivity. Qed.

Lemma wf_buffer_ingested (k : string) (c : call) (self : t) :
  wf self -> wf_buffer k (ingested k c self).
Proof.
  intros Hwf. unfold ingested.
  destruct (buffers self !! k) as [b|] eqn:E; simpl.
  - destruct (Hwf k b E) as (Hid & Hm & Hl & _). apply wf_buffer_added; [assumption ..|lia].
  - apply wf_buffer_added; simpl; [reflexivity .. | unfold window; simpl; lia].
Qed.

Lemma wf_run_op (o : op) (self : t) : wf self -> wf (run_op o self).
Proof.
  intros Hwf k b. destruct o as [k' c|now].
  - rewrite buffers_run_ingest. destruct (decide (k' = k)) as [->|Hne].
    + rewrite lookup_insert_eq. intros [= <-]. now apply wf_buffer_ingested.
    + rewrite lookup_insert_ne by assumption. apply Hwf.
  - rewrite buffers_run_cleanup. intros [H _]%map_lookup_filter_Some. now apply Hwf.
Qed.

Lemma wf_run_trace (tr : list op) (self : t) : wf self -> wf (run_trace tr self).
Proof.
  revert self. induction tr as [|o tr IH]; intros self Hwf; [assumption|].
  rewrite run_trace_cons. apply IH. now apply wf_run_op.
Qed.

Lemma reachable_wf (self : t) : reachable self -> wf self.
Proof.
  intros (limit & ttl & tr & ->). apply wf_run_trace.
  intros k b H. simpl in H. rewrite lookup_empty in H. discriminate.
Qed.

(** A key no call has ingested is not in the dictionary. *)
Lemma never_ingested_absent (k : string) (tr : list op) (self : t) :
  buffers self !! k = None ->
  Forall (fun o => ingested_key o <> Some k) tr ->
  buffers (run_trace tr self) !! k = None.
Proof.
  revert self. induction tr as [|o tr IH]; intros self Habs Hall; [assumption|].
  apply Forall_cons in Hall as [Ho Hall]. rewrite run_trace_cons. apply IH; [|assumption].
  destruct o as [k' c|now].
  - rewrite buffers_run_ingest. rewrite lookup_insert_ne; [assumption|].
    simpl in Ho. congruence.
  - rewrite buffers_run_cleanup. apply map_lookup_filter_None. now left.
Qed.

(** The window of a key after a run of calls that all ingest to it. *)
Lemma window_after_ingests (k : string) (cs : list call) (self : t) (b0 : SegmentBuffer.t)
    (history : list VehicleSample) :
  buffers self !! k = Some b0 ->
  wf_buffer k b0 ->
  window b0 = lastn 10 history ->
  exists b, buffers (run_trace (map (Ingest k) cs) self) !! k = Some b /\
            wf_buffer k b /\
            window b = lastn 10 (history ++ map sample_of cs).
Proof.
  revert self b0 history. induction cs as [|c cs IH]; intros self b0 history Hb Hwf Hw.
  - exists b0. simpl. rewrite app_nil_r. auto.
  - simpl map. rewrite run_trace_cons.
    destruct Hwf as (Hid & Hm & Hl & _).
    destruct (IH (run_op (Ingest k c) self) (ingested k c self)
                (history ++ [sample_of c])) as (b & Hb' & Hm' & Hw').
    + rewrite buffers_run_ingest. apply lookup_insert_eq.
    + unfold ingested. rewrite Hb. simpl. apply wf_buffer_added; [assumption ..|lia].
    + unfold ingested. rewrite window_added, Hb. simpl. rewrite Hm, Hw.
      apply lastn_snoc. lia.
    + exists b. rewrite <- app_assoc in Hw'. auto.
Qed.

Lemma window_after_fresh_ingests (k : string) (c : call) (cs : list call) (self : t) :
  buffers self !! k = None ->
  exists b, buffers (run_trace (map (Ingest k) (c :: cs)) self) !! k = Some b /\
            wf_buffer k b /\
            window b = lastn 10 (map sample_of (c :: cs)).
Proof.
  intros Habs. simpl map. rewrite run_trace_cons.
  apply (window_after_ingests k cs (run_op (Ingest k c) self) (ingested k c self)
              [sample_of c]).
  - rewrite buffers_run_ingest. apply lookup_insert_eq.
  - unfold ingested. rewrite Habs. simpl.
    apply wf_buffer_added; [reflexivity .. | unfold window; simpl; lia].
  - unfold ingested. rewrite window_added, Habs. reflexivity.
Qed.

(** The operations read the buffers only. *)
Lemma buffers_run_op_ext (o : op) (s1 s2 : t) :
  buffers s1 = buffers s2 -> buffers (run_op o s1) = buffers (run_op o s2).
Proof.
  intros E. destruct o as [k c|now].
  - rewrite !buffers_run_ingest. unfold ingested. now rewrite E.
  - rewrite !buffers_run_cleanup. now rewrite E.
Qed.

Lemma buffers_run_trace_ext (tr : list op) (s1 s2 : t) :
  buffers s1 = buffers s2 -> buffers (run_trace tr s1) = buffers (run_trace tr s2).
Proof.
  revert s1 s2. induction tr as [|o tr IH]; intros s1 s2 E; [assumption|].
  rewrite !run_trace_cons. apply IH. now apply buffers_run_op_ext.
Qed.

(** A history of observations is a history. *)
Lemma observed_reachable (self : t) : observed self -> reachable self.
Proof. intros (limit & ttl & tr & _ & ->). exists limit, ttl, tr. reflexivity. Qed.

Lemma observed_wf (self : t) : observed self -> wf self.
Proof. intros H. now apply reachable_wf, observed_reachable. Qed.

Lemma full_service_observed : observed full_service.
Proof.
  exists 10, 30, (map (Ingest "seg_001") (take 10 eleven_calls)).
  split; [|reflexivity]. repeat constructor; simpl; discriminate.
Qed.

End Histories.

(** ** The aggregate as a weighted mean *)

Section WeightedMean.

Lemma is_fin_qval (x : pyfloat) : is_fin x = true -> x = Fin (qval x).
Proof. destruct x; try discriminate. reflexivity. Qed.

Lemma map_scores_fin (l : list VehicleSample) :
  Forall finite_sample l -> map comfort_score l = map Fin (map score_q l).
Proof.
  induction 1 as [|s l [Hs _] _ IH]; [reflexivity|]. simpl.
  rewrite IH. f_equal. now apply is_fin_qval.
Qed.

Lemma map_confidences_fin (l : list VehicleSample) :
  Forall finite_sample l -> map confidence l = map Fin (map conf_q l).
Proof.
  induction 1 as [|s l [_ Hc] _ IH]; [reflexivity|]. simpl.
  rewrite IH. f_equal. now apply is_fin_qval.
Qed.

Lemma np_divide_fin (qs : list Q) (s : Q) :
  Qeq_bool s 0 = false ->
  np_divide (map Fin qs) (Fin s) = map fin (map (fun c => (c / s)%Q) qs).
Proof.
  intros Hs. unfold np_divide. rewrite !map_map. apply map_ext. intros c. simpl.
  now rewrite Hs.
Qed.

Lemma np_multiply_fin (l : list VehicleSample) (g : VehicleSample -> Q) :
  np_multiply (map Fin (map score_q l)) (map fin (map g l)) =
  map fin (map (fun s => (score_q s * Qred (g s))%Q) l).
Proof. induction l as [|s l IH]; [reflexivity|]. simpl. f_equal. apply IH. Qed.

Lemma Qsum_weighted (l : list VehicleSample) (S S' : Q) :
  (S' == S)%Q ->
  (Qsum (map (fun s => score_q s * Qred (conf_q s / S')) l) ==
   Qsum (zip_with Qmult (map (fun s => conf_q s / S) l) (map score_q l)))%Q.
Proof.
  intros HS. induction l as [|s l IH]; [reflexivity|]. simpl.
  rewrite IH, Qred_correct, HS. ring.
Qed.

Lemma Qeq_bool_false (q : Q) : ~ (q == 0)%Q -> Qeq_bool q 0 = false.
Proof. intros H. apply not_true_is_false. intros E%Qeq_bool_iff. contradiction. Qed.

Lemma normalized_weights_sum (l : list VehicleSample) :
  ~ (Qsum (map conf_q l) == 0)%Q -> (Qsum (normalized_weights l) == 1)%Q.
Proof.
  intros H. unfold normalized_weights. fold conf_q.
  rewrite <- (map_map conf_q (fun c => (c / Qsum (map conf_q l))%Q)).
  rewrite Qsum_div. now field.
Qed.

(** With finite scores and confidences whose sum is not zero, the stored
    aggregate is the mean of the scores weighted by normalized confidence. *)
Lemma aggregate_of_weighted_mean (l : list VehicleSample) :
  Forall finite_sample l ->
  ~ (Qsum (map conf_q l) == 0)%Q ->
  aggregate_of l = fin (weighted_mean l).
Proof.
  intros Hfin Hnz. unfold aggregate_of.
  rewrite map_scores_fin, map_confidences_fin by assumption.
  rewrite np_sum_fin.
  set (S := Qsum (map conf_q l)) in *.
  change (fin S) with (Fin (Qred S)).
  assert (HS : Qeq_bool (Qred S) 0 = false)
    by (apply Qeq_bool_false; now rewrite Qred_correct).
  rewrite np_divide_fin by assumption.
  rewrite !(map_map conf_q).
  rewrite (np_multiply_fin l (fun x => (conf_q x / Qred S)%Q)).
  rewrite !np_sum_fins.
  assert (Hone : (Qsum (map (fun x => conf_q x / Qred S) l) == 1)%Q).
  { rewrite <- (map_map conf_q (fun c => (c / Qred S)%Q)).
    rewrite Qsum_div. fold S. rewrite Qred_correct. now field. }
  unfold fin at 1 2. simpl.
  rewrite Qeq_bool_false by (rewrite Qred_correct, Hone; discriminate).
  apply fin_eq. rewrite !Qred_correct, Hone.
  rewrite (Qsum_weighted l S (Qred S)) by apply Qred_correct.
  change (Qred 1) with 1%Q.
  match goal with |- (?a / 1 == _)%Q => change (a / 1 == a)%Q; generalize a end.
  intros a. field.
Qed.

Lemma Qsum_nonneg (qs : list Q) : Forall (fun q => 0 <= q)%Q qs -> (0 <= Qsum qs)%Q.
Proof.
  induction 1 as [|q qs Hq _ IH]; simpl; [apply Qle_refl|].
  replace 0%Q with (0 + 0)%Q by reflexivity. now apply Qplus_le_compat.
Qed.

Lemma Qsum_pos (qs : list Q) :
  Forall (fun q => 0 <= q)%Q qs -> Exists (fun q => ~ (q == 0)%Q) qs -> (0 < Qsum qs)%Q.
Proof.
  intros Hall Hex. induction Hex as [q qs Hq|q qs Hex IH]; simpl.
  - apply Forall_cons in Hall as [H0 Hall]. apply Qsum_nonneg in Hall.
    assert (0 < q)%Q by (apply Qle_lteq in H0 as [?|E]; [assumption|]; symmetry in E; contradiction).
    lra.
  - apply Forall_cons in Hall as [H0 Hall]. specialize (IH Hall). lra.
Qed.

End WeightedMean.

(** ** Validation of the input (C1) *)

(** C1, as stated, fails: on a new service a call with score 2.0 and a call
    with confidence 1.5, each outside [0,1], neither fail nor leave the store
    as it was; they are accepted and the window is created. *)
Lemma ingest_out_of_range_accepted :
  let r := ingest_prediction "seg_001" (Fin 2) (Fin (1 # 2)) "vehicle" (Fin 0) (Fin 0)
             None 0 default_service in
  let r' := ingest_prediction "seg_001" (Fin (1 # 2)) (Fin (3 # 2)) "vehicle" (Fin 0)
              (Fin 0) None 0 default_service in
  (~ raised r /\ snd r <> default_service) /\
  (~ raised r' /\ snd r' <> default_service).
Proof.
  intros r r'. unfold r, r'. rewrite !ingest_prediction_run.
  split; (split; [intros [e He]; discriminate|]);
    intros E; apply (f_equal (fun s => buffers s !! "seg_001")) in E;
    simpl in E; rewrite lookup_insert_eq in E; discriminate.
Qed.

(** C1, amended: [ingest_prediction] checks no range and has no [InputError].
    On a key that has no window every call, whatever its score and
    confidence, returns with count 1 and creates the window, which holds the
    sample as it was given.  On a service whose history is of observations
    every call with a confidence in [0,1] returns, whatever its score: it
    appends the sample to the window of its key (which evicts as a deque
    does) and stamps it with the clock.  In both cases no other key is
    touched. *)
Theorem ingest_checks_no_range :
  (forall (k : string) (score conf : pyfloat) (vid : string) (speed heading : pyfloat)
          (ts : option datetime) (now : datetime) (self : t),
     buffers self !! k = None ->
     exists b,
       ingest_prediction k score conf vid speed heading ts now self =
         (Ok (SegmentBuffer.aggregated_score b, 1%nat, false),
          set_buffers (insert k b) self) /\
       window b = [mk_VehicleSample score conf vid (default now ts) speed heading] /\
       SegmentBuffer.last_updated b = now) /\
  (forall (k : string) (score conf : pyfloat) (vid : string) (speed heading : pyfloat)
          (ts : option datetime) (now : datetime) (self : t),
     observed self -> in_range 0 1 conf ->
     let sample := mk_VehicleSample score conf vid (default now ts) speed heading in
     let b0 := default (SegmentBuffer.new k now) (buffers self !! k) in
     exists b,
       ingest_prediction k score conf vid speed heading ts now self =
         (Ok (SegmentBuffer.aggregated_score b, length (window b), finalized b),
          set_buffers (insert k b) self) /\
       SegmentBuffer.samples b = deque_append sample (SegmentBuffer.samples b0) /\
       SegmentBuffer.last_updated b = now).
Proof.
  split.
  - intros k score conf vid speed heading ts now self Habs.
    rewrite ingest_prediction_run, Habs. cbn [default from_option id].
    eexists. split; [reflexivity|]. split; reflexivity.
  - intros k score conf vid speed heading ts now self _ _ sample b0.
    exists (added sample now b0). split; [|split].
    + apply ingest_prediction_run.
    + apply samples_added.
    + apply last_updated_added.
Qed.

Lemma ingest_checks_no_range_witness :
  exists b,
    ingest_prediction "seg_001" (Fin 2) (Fin (1 # 2)) "vehicle" (Fin 0) (Fin 0) None 11
      full_service =
      (Ok (SegmentBuffer.aggregated_score b, length (window b), finalized b),
       set_buffers (insert "seg_001" b) full_service) /\
    SegmentBuffer.samples b =
      deque_append (mk_VehicleSample (Fin 2) (Fin (1 # 2)) "vehicle" 11 (Fin 0) (Fin 0))
        (SegmentBuffer.samples
           (default (SegmentBuffer.new "seg_001" 11) (buffers full_service !! "seg_001"))) /\
    SegmentBuffer.last_updated b = 11.
Proof.
  apply (proj2 ingest_checks_no_range "seg_001" (Fin 2) (Fin (1 # 2)) "vehicle" (Fin 0)
           (Fin 0) None 11 full_service).
  - apply full_service_observed.
  - simpl. split; discriminate.
Defined.

(** ** Zero confidences (C2) *)

Lemma np_sum_zero_confidences (l : list VehicleSample) :
  Forall (fun s => confidence s = Fin 0) l -> np_sum (map confidence l) = Fin 0.
Proof.
  induction 1 as [|s l Hs _ IH]; [reflexivity|].
  change (np_sum (map confidence (s :: l)))
    with (fadd (confidence s) (np_sum (map confidence l))).
  rewrite Hs, IH. reflexivity.
Qed.

(** A non-empty window whose confidences are all zero has the aggregate nan:
    0/0 in every weight. *)
Lemma aggregate_of_zero_confidences (s : VehicleSample) (l : list VehicleSample) :
  Forall (fun s => confidence s = Fin 0) (s :: l) -> aggregate_of (s :: l) = NaN.
Proof.
  intros H. unfold aggregate_of. rewrite (np_sum_zero_confidences _ H).
  apply Forall_cons in H as [Hs _]. simpl. rewrite Hs. simpl.
  apply fdiv_nan_r.
Qed.

Lemma added_new (s : VehicleSample) (k : string) (now now' : datetime) :
  added s now (SegmentBuffer.new k now') =
  SegmentBuffer.mk k (mk_deque 10 [s]) (aggregate_of [s]) now
    (Some (now + timedelta_days 30)).
Proof. reflexivity. Qed.

(** C2: the code at the failing input.  On a new service, one observation with
    confidence 0.0 (and any score) makes the stored and returned aggregate
    nan, where the claim has the unweighted mean of the scores; the empty
    window has the aggregate 0.5 as claimed. *)
Theorem zero_confidence_aggregate_is_nan (k : string) (score : pyfloat) (now : datetime) :
  SegmentBuffer.aggregated_score (SegmentBuffer.new k now) = Fin (1 # 2) /\
  fst (ingest_prediction k score (Fin 0) "vehicle" (Fin 0) (Fin 0) None now
         default_service) = Ok (NaN, 1%nat, false).
Proof.
  split; [reflexivity|]. rewrite ingest_prediction_run. cbv zeta.
  replace (buffers default_service !! k) with (@None SegmentBuffer.t)
    by (symmetry; apply lookup_empty).
  cbn [default from_option id]. rewrite added_new.
  cbn [fst SegmentBuffer.aggregated_score].
  rewrite aggregate_of_zero_confidences by (repeat constructor). reflexivity.
Qed.

(** ** The weighted mean over at most ten inserts (C3) *)

Lemma in_range_fin (lo hi : Q) (x : pyfloat) :
  in_range lo hi x -> is_fin x = true /\ (lo <= qval x /\ qval x <= hi)%Q.
Proof. destruct x; simpl; intuition. Qed.

Lemma observations_finite (cs : list call) :
  Forall observation cs -> Forall finite_sample (map sample_of cs).
Proof.
  induction 1 as [|c cs [Hs Hc] _ IH]; constructor; [|assumption].
  split; [apply (in_range_fin _ _ _ Hs) | apply (in_range_fin _ _ _ Hc)].
Qed.

Lemma observations_confidence_sum (cs : list call) :
  Forall observation cs ->
  Exists (fun c => feq0 (call_confidence c) = false) cs ->
  (0 < Qsum (map conf_q (map sample_of cs)))%Q.
Proof.
  intros Hall Hex. pose proof Hall as Hall'. apply Qsum_pos.
  - rewrite !Forall_map. eapply Forall_impl; [exact Hall|].
    intros c [_ Hc]. apply (in_range_fin _ _ _ Hc).
  - rewrite !Exists_map. clear Hall'. induction Hex as [c cs Hc|c cs _ IH].
    + left. apply Forall_cons in Hall as [[_ Hr] _].
      unfold conf_q, sample_of. cbn [confidence].
      destruct (call_confidence c) as [q| | |]; try contradiction.
      cbn [feq0 qval] in *. intros E%Qeq_bool_iff. congruence.
    + right. apply IH. now apply Forall_cons in Hall as [_ Hall].
Qed.

(** C3, as stated, fails at its own example: after scores [0.7, 0.8, 0.6]
    with confidences [0.9, 0.95, 0.8] the aggregate is not 0.718, not even to
    within 0.01. *)
Lemma example_aggregate_is_not_0718 :
  ~ exists x, aggregate_after "seg_001" example_calls default_service = Some x /\
              approx (1 # 100) (718 # 1000) x.
Proof.
  intros [x [Hx Ha]]. vm_compute in Hx. injection Hx as <-.
  vm_compute in Ha. apply Ha. reflexivity.
Qed.

(** C3, amended: for every sequence of at most 10 inserts of observations to a
    new key whose confidences are not all zero, the window holds exactly the
    inserted samples, the normalized weights sum to 1 and the aggregate after
    the last insert is the mean of the scores under those weights; scores
    [0.7, 0.8, 0.6] with confidences [0.9, 0.95, 0.8] give 187/265, which is
    0.706 to three decimals. *)
Theorem aggregate_is_weighted_mean :
  (forall (k : string) (cs : list call) (self : t),
     buffers self !! k = None ->
     (length cs <= 10)%nat ->
     Forall observation cs ->
     Exists (fun c => feq0 (call_confidence c) = false) cs ->
     exists b,
       buffers (run_trace (map (Ingest k) cs) self) !! k = Some b /\
       window b = map sample_of cs /\
       (Qsum (normalized_weights (window b)) == 1)%Q /\
       SegmentBuffer.aggregated_score b = fin (weighted_mean (window b))) /\
  aggregate_after "seg_001" example_calls default_service = Some (Fin (187 # 265)) /\
  approx3 (706 # 1000) (Fin (187 # 265)).
Proof.
  split; [|split].
  - intros k cs self Habs Hlen Hobs Hex.
    destruct cs as [|c cs]; [inversion Hex|].
    destruct (window_after_fresh_ingests k c cs self Habs) as (b & Hb & Hwf & Hw).
    rewrite lastn_short in Hw by (rewrite length_map; exact Hlen).
    pose proof (observations_confidence_sum _ Hobs Hex) as Hpos.
    assert (Hnz : ~ (Qsum (map conf_q (map sample_of (c :: cs))) == 0)%Q)
      by (intros E; rewrite E in Hpos; discriminate).
    exists b. split; [exact Hb|]. split; [exact Hw|]. rewrite Hw. split.
    + now apply normalized_weights_sum.
    + destruct Hwf as (_ & _ & _ & Hagg & _). rewrite Hagg, Hw.
      apply aggregate_of_weighted_mean; [|assumption].
      now apply observations_finite.
  - vm_compute. reflexivity.
  - vm_compute. discriminate.
Qed.

Lemma aggregate_is_weighted_mean_witness :
  exists b,
    buffers (run_trace (map (Ingest "seg_001") example_calls) default_service)
      !! "seg_001" = Some b /\
    window b = map sample_of example_calls /\
    (Qsum (normalized_weights (window b)) == 1)%Q /\
    SegmentBuffer.aggregated_score b = fin (weighted_mean (window b)).
Proof.
  apply (proj1 aggregate_is_weighted_mean).
  - reflexivity.
  - simpl. lia.
  - repeat constructor; simpl; discriminate.
  - left. reflexivity.
Defined.

(** ** The window is a ring of ten (C4) *)

Lemma lastn_one_more {A} (n : nat) (l : list A) :
  length l = S n -> lastn n l = tail l.
Proof.
  intros H. unfold lastn. rewrite H, tail_drop. f_equal. lia.
Qed.

(** C4: in every state of a service a window holds at most 10 samples; an
    insert into a full window drops its oldest sample and puts the new one
    last; after 11 inserts to a new key the window is samples #2 to #11 in
    insertion order.  When the inserts carry observations, the stored
    aggregate is the one computed from exactly the samples the window holds:
    after the insert into a full window from all but its former oldest sample
    and the new one, after 11 inserts from samples #2 to #11. *)
Theorem window_is_fifo_ring :
  (forall (self : t) (k : string) (b : SegmentBuffer.t),
     reachable self -> buffers self !! k = Some b ->
     (length (window b) <= 10)%nat) /\
  (forall (self : t) (k : string) (b : SegmentBuffer.t) (c : call),
     reachable self -> buffers self !! k = Some b -> length (window b) = 10%nat ->
     exists b',
       buffers (run_op (Ingest k c) self) !! k = Some b' /\
       window b' = tail (window b) ++ [sample_of c] /\
       (observed self -> observation c ->
        SegmentBuffer.aggregated_score b' =
          aggregate_of (tail (window b) ++ [sample_of c]))) /\
  (forall (self : t) (k : string) (cs : list call),
     buffers self !! k = None -> length cs = 11%nat ->
     exists b,
       buffers (run_trace (map (Ingest k) cs) self) !! k = Some b /\
       window b = tail (map sample_of cs) /\
       (Forall observation cs ->
        SegmentBuffer.aggregated_score b = aggregate_of (tail (map sample_of cs)))).
Proof.
  split; [|split].
  - intros self k b Hr Hb. destruct (reachable_wf self Hr k b Hb) as (_ & _ & Hl & _).
    lia.
  - intros self k b c Hr Hb Hlen.
    destruct (reachable_wf self Hr k b Hb) as (Hid & Hm & Hl & _).
    exists (ingested k c self). rewrite buffers_run_ingest, lookup_insert_eq.
    split; [reflexivity|]. unfold ingested. rewrite Hb. cbn [default from_option id].
    assert (Hw : window (added (sample_of c) (call_time c) b) =
                 tail (window b) ++ [sample_of c]).
    { rewrite window_added, Hm, length_app, Hlen. simpl.
      destruct (window b); [discriminate | reflexivity]. }
    split; [exact Hw|]. intros _ _. rewrite <- Hw.
    apply aggregated_score_added. lia.
  - intros self k cs Habs Hlen. destruct cs as [|c cs]; [discriminate|].
    destruct (window_after_fresh_ingests k c cs self Habs) as (b & Hb & Hwf & Hw).
    rewrite lastn_one_more in Hw by (rewrite length_map; exact Hlen).
    exists b. split; [exact Hb|]. split; [exact Hw|]. intros _.
    destruct Hwf as (_ & _ & _ & Hagg & _). now rewrite Hagg, Hw.
Qed.

Lemma full_service_reachable : reachable full_service.
Proof. exists 10, 30, (map (Ingest "seg_001") (take 10 eleven_calls)). reflexivity. Qed.

Lemma full_service_buffer :
  buffers full_service !! "seg_001" = Some (buffer_of "seg_001" full_service).
Proof. vm_compute. reflexivity. Qed.

Lemma window_is_fifo_ring_witness :
  (length (window (buffer_of "seg_001" full_service)) <= 10)%nat /\
  (exists b',
     buffers (run_op (Ingest "seg_001" (plain_call 11 (11 # 100) 1)) full_service)
       !! "seg_001" = Some b' /\
     window b' = tail (window (buffer_of "seg_001" full_service)) ++
                 [sample_of (plain_call 11 (11 # 100) 1)] /\
     SegmentBuffer.aggregated_score b' =
       aggregate_of (tail (window (buffer_of "seg_001" full_service)) ++
                     [sample_of (plain_call 11 (11 # 100) 1)])) /\
  (exists b,
     buffers (run_trace (map (Ingest "seg_001") eleven_calls) default_service)
       !! "seg_001" = Some b /\
     window b = tail (map sample_of eleven_calls) /\
     SegmentBuffer.aggregated_score b = aggregate_of (tail (map sample_of eleven_calls))).
Proof.
  split; [|split].
  - apply (proj1 window_is_fifo_ring full_service "seg_001");
      [apply full_service_reachable | apply full_service_buffer].
  - destruct (proj1 (proj2 window_is_fifo_ring) full_service "seg_001"
                (buffer_of "seg_001" full_service) (plain_call 11 (11 # 100) 1))
      as (b' & Hb' & Hw & Hagg);
      [apply full_service_reachable | apply full_service_buffer | reflexivity |].
    exists b'. split; [exact Hb'|]. split; [exact Hw|].
    apply Hagg; [apply full_service_observed | simpl; repeat split; discriminate].
  - destruct (proj2 (proj2 window_is_fifo_ring) default_service "seg_001" eleven_calls)
      as (b & Hb & Hw & Hagg); [reflexivity | reflexivity |].
    exists b. split; [exact Hb|]. split; [exact Hw|].
    apply Hagg. repeat constructor; simpl; discriminate.
Defined.

(** ** Finalization (C7) *)

Lemma finalized_added (s : VehicleSample) (now : datetime) (b : SegmentBuffer.t) :
  maxlen (SegmentBuffer.samples b) = 10%nat -> (length (window b) <= 10)%nat ->
  finalized b = true -> finalized (added s now b) = true.
Proof.
  intros Hm Hl Hf. unfold finalized in *. fold (window b) in Hf.
  fold (window (added s now b)). rewrite length_window_added by assumption.
  apply Nat.leb_le in Hf. apply Nat.leb_le. lia.
Qed.

(** Inserts, to any keys, keep a finalized window finalized. *)
Lemma finalized_stays (tr : list op) (self : t) (k : string) (b : SegmentBuffer.t) :
  Forall is_ingest tr -> wf self ->
  buffers self !! k = Some b -> finalized b = true ->
  exists b', buffers (run_trace tr self) !! k = Some b' /\ finalized b' = true.
Proof.
  revert self b. induction tr as [|o tr IH]; intros self b Hall Hwf Hb Hf.
  - exists b. auto.
  - apply Forall_cons in Hall as [Ho Hall]. rewrite run_trace_cons.
    destruct o as [k' c|now]; [|contradiction].
    destruct (decide (k' = k)) as [->|Hne].
    + apply (IH _ (ingested k c self)); [assumption | now apply wf_run_op | |].
      * rewrite buffers_run_ingest. apply lookup_insert_eq.
      * unfold ingested. rewrite Hb. cbn [default from_option id].
        destruct (Hwf k b Hb) as (_ & Hm & Hl & _).
        apply finalized_added; [assumption | lia | assumption].
    + apply (IH _ b); [assumption | now apply wf_run_op | | assumption].
      rewrite buffers_run_ingest, lookup_insert_ne by assumption. exact Hb.
Qed.

(** C7: [is_finalized] answers whether the window holds at least 10 samples
    and changes nothing; after n >= 1 inserts to a new key the window is
    finalized exactly when n >= 10 (not for 1 to 9 inserts, and from the 10th
    on); and a finalized window stays finalized through every later insert,
    to this key or another. *)
Theorem finalized_from_ten_on :
  (forall (b : SegmentBuffer.t) (now : datetime),
     SegmentBuffer.is_finalized now b = (Ok (10 <=? length (window b))%nat, b)) /\
  (forall (self : t) (k : string) (c : call) (cs : list call),
     buffers self !! k = None ->
     exists b,
       buffers (run_trace (map (Ingest k) (c :: cs)) self) !! k = Some b /\
       finalized b = (10 <=? length (c :: cs))%nat) /\
  (forall (self : t) (k : string) (b : SegmentBuffer.t) (tr : list op),
     reachable self -> Forall is_ingest tr ->
     buffers self !! k = Some b -> finalized b = true ->
     exists b', buffers (run_trace tr self) !! k = Some b' /\ finalized b' = true).
Proof.
  split; [|split].
  - intros b now. reflexivity.
  - intros self k c cs Habs.
    destruct (window_after_fresh_ingests k c cs self Habs) as (b & Hb & _ & Hw).
    exists b. split; [exact Hb|]. unfold finalized. fold (window b).
    rewrite Hw, length_lastn, length_map.
    destruct (Nat.leb_spec 10 (length (c :: cs))) as [H|H].
    + apply Nat.leb_le. lia.
    + apply Nat.leb_gt. lia.
  - intros self k b tr Hr Hall Hb Hf.
    apply (finalized_stays tr self k b); [assumption | now apply reachable_wf | assumption ..].
Qed.

Lemma finalized_from_ten_on_witness :
  (exists b,
     buffers (run_trace (map (Ingest "seg_001") eleven_calls) default_service)
       !! "seg_001" = Some b /\
     finalized b = (10 <=? length eleven_calls)%nat) /\
  (exists b',
     buffers (run_trace [Ingest "seg_002" (plain_call 20 (1 # 2) 1);
                         Ingest "seg_001" (plain_call 21 (1 # 2) 1)] full_service)
       !! "seg_001" = Some b' /\
     finalized b' = true).
Proof.
  split.
  - apply (proj1 (proj2 finalized_from_ten_on) default_service "seg_001"
             (plain_call 1 (1 # 100) 1)
             (map (fun i => plain_call (Z.of_nat i) (Z.of_nat i # 100) 1) (seq 2 10))).
    reflexivity.
  - apply (proj2 (proj2 finalized_from_ten_on) full_service "seg_001"
             (buffer_of "seg_001" full_service)).
    + apply full_service_reachable.
    + repeat constructor.
    + apply full_service_buffer.
    + reflexivity.
Defined.

(** ** Queries and the sweep (C8) *)

Lemma expired_entries_elem (now : datetime) (self : t) (k : string) (b : SegmentBuffer.t) :
  (k, b) ∈ expired_entries now self <->
  buffers self !! k = Some b /\ valid_at now b = false.
Proof.
  unfold expired_entries, entries. rewrite list_elem_of_In, filter_In.
  rewrite <- list_elem_of_In, elem_of_map_to_list. simpl.
  rewrite negb_true_iff. reflexivity.
Qed.

(** C8: the code at the failing input.  The time to live the service is
    constructed with is stored in [TTL] and never read: [_update_aggregation]
    sets the expiry 30 days after the update whatever [TTL] holds.  A key no
    call has ingested is not found ([None], and the store stays as it is).
    On a service whose history is of observations, a key last updated 30 days
    and one second before the query is found with [is_valid] false, and a
    sweep at that instant or later removes it and counts it.  A sweep keeps
    exactly the keys whose expiry instant is still ahead, removes the others
    and returns how many it removed.  Queries and sweeps answer the same under
    every configured time to live; so, with a time to live of one day, a key
    last updated [TTL] and one second before is still reported valid, and the
    sweep at that instant removes nothing. *)
Theorem expiry_ignores_configured_ttl :
  (forall (limit ttl_days : Z) (tr : list op) (k : string) (now : datetime),
     Forall (fun o => ingested_key o <> Some k) tr ->
     get_segment_score k now (run_trace tr (__init__ limit ttl_days)) =
     (Ok None, run_trace tr (__init__ limit ttl_days))) /\
  (forall (self : t) (k : string) (b : SegmentBuffer.t) (now later : datetime),
     observed self -> buffers self !! k = Some b ->
     now = SegmentBuffer.last_updated b + timedelta_days 30 + timedelta_seconds 1 ->
     now <= later ->
     exists info n self',
       get_segment_score k now self = (Ok (Some info), self) /\
       SegmentScore.is_valid info = false /\
       cleanup_expired later self = (Ok n, self') /\
       buffers self' !! k = None /\
       (k, b) ∈ expired_entries later self /\
       n = length (expired_entries later self)) /\
  (forall (self : t) (now : datetime),
     reachable self ->
     exists n self',
       cleanup_expired now self = (Ok n, self') /\
       (forall k b, buffers self' !! k = Some b <->
          buffers self !! k = Some b /\
          exists e, SegmentBuffer.expires_at b = Some e /\ now < e) /\
       (forall k b, buffers self !! k = Some b ->
          buffers self' !! k = None <->
          exists e, SegmentBuffer.expires_at b = Some e /\ e <= now) /\
       (n + size (buffers self') = size (buffers self))%nat) /\
  (forall (limit ttl_days : Z) (tr : list op) (k : string) (now : datetime),
     fst (get_segment_score k now (run_trace tr (__init__ limit ttl_days))) =
     fst (get_segment_score k now (run_trace tr default_service)) /\
     fst (cleanup_expired now (run_trace tr (__init__ limit ttl_days))) =
     fst (cleanup_expired now (run_trace tr default_service))) /\
  (let self := one_day_service in
   let now := 0 + TTL self + timedelta_seconds 1 in
   TTL self = timedelta_days 1 /\
   (exists info,
      get_segment_score "seg_001" now self = (Ok (Some info), self) /\
      SegmentScore.last_updated info = 0 /\
      SegmentScore.is_valid info = true) /\
   cleanup_expired now self = (Ok 0%nat, self)).
Proof.
  split; [|split; [|split; [|split]]].
  - intros limit ttl tr k now Hall. rewrite get_segment_score_run.
    rewrite never_ingested_absent; [reflexivity | apply lookup_empty | assumption].
  - intros self k b now later Hr Hb Hnow Hlater.
    destruct (observed_wf self Hr k b Hb) as (_ & _ & _ & _ & Hexp).
    assert (Hv : forall t', now <= t' -> valid_at t' b = false).
    { intros t' Ht. unfold valid_at. rewrite Hexp. apply Z.ltb_ge.
      unfold timedelta_seconds in Hnow. lia. }
    exists (score_of now k b), (length (expired_entries later self)),
      (set_buffers (filter (fun kb => valid_at later (snd kb) = true)) self).
    split; [rewrite get_segment_score_run, Hb; reflexivity|].
    split; [apply Hv; lia|]. split; [apply cleanup_expired_run|].
    split; [|split; [|reflexivity]].
    + destruct self; simpl in *. apply map_lookup_filter_None. right.
      intros b' Hb'. simpl. rewrite Hb in Hb'. injection Hb' as <-.
      rewrite (Hv later Hlater). discriminate.
    + apply expired_entries_elem. auto.
  - intros self now Hr.
    exists (length (expired_entries now self)),
      (set_buffers (filter (fun kb => valid_at now (snd kb) = true)) self).
    split; [apply cleanup_expired_run|].
    assert (Hlook : forall k b,
              buffers (set_buffers (filter (fun kb => valid_at now (snd kb) = true)) self)
                !! k = Some b <->
              buffers self !! k = Some b /\
              exists e, SegmentBuffer.expires_at b = Some e /\ now < e).
    { intros k b. destruct self as [lim ttl m]; simpl. rewrite map_lookup_filter_Some.
      simpl. unfold valid_at. split.
      - intros [Hb Hv]. split; [assumption|].
        destruct (SegmentBuffer.expires_at b) as [e|]; [|discriminate].
        exists e. split; [reflexivity|]. now apply Z.ltb_lt.
      - intros [Hb [e [He Hlt]]]. split; [assumption|]. rewrite He. now apply Z.ltb_lt. }
    split; [exact Hlook|]. split.
    + intros k b Hb.
      destruct (reachable_wf self Hr k b Hb) as (_ & _ & _ & _ & Hexp).
      split.
      * intros Hnone. eexists. split; [exact Hexp|].
        destruct (Z.le_gt_cases (SegmentBuffer.last_updated b + timedelta_days 30) now)
          as [Hle|Hlt]; [assumption|].
        exfalso. assert (Hsome : buffers
            (set_buffers (filter (fun kb => valid_at now (snd kb) = true)) self) !! k
            = Some b) by (apply Hlook; eauto).
        congruence.
      * intros [e [He Hle]].
        destruct (buffers (set_buffers _ self) !! k) as [b'|] eqn:Hb'; [|reflexivity].
        apply Hlook in Hb' as [Hb'' [e' [He' Hlt]]].
        rewrite Hb in Hb''. injection Hb'' as <-. rewrite He in He'.
        injection He' as <-. lia.
    + destruct self as [lim ttl m]. apply cleanup_count_size.
  - intros limit ttl tr k now.
    pose proof (buffers_run_trace_ext tr (__init__ limit ttl) default_service eq_refl) as E.
    rewrite !get_segment_score_run, !cleanup_expired_run.
    unfold expired_entries, entries. cbn [fst]. now rewrite E.
  - vm_compute. split; [reflexivity|]. split; [|reflexivity].
    eexists. split; [reflexivity|]. split; reflexivity.
Qed.

Lemma one_call_service_observed : observed one_call_service.
Proof.
  exists 10, 30, [Ingest "seg_001" (plain_call 1 (7 # 10) (9 # 10))].
  split; [|reflexivity]. repeat constructor; simpl; discriminate.
Qed.

Lemma expiry_ignores_configured_ttl_witness :
  let now := 1 + timedelta_days 30 + timedelta_seconds 1 in
  exists info n self',
    get_segment_score "seg_001" now one_call_service =
      (Ok (Some info), one_call_service) /\
    SegmentScore.is_valid info = false /\
    cleanup_expired (now + 5) one_call_service = (Ok n, self') /\
    buffers self' !! "seg_001" = None /\
    ("seg_001", buffer_of "seg_001" one_call_service)
      ∈ expired_entries (now + 5) one_call_service /\
    n = length (expired_entries (now + 5) one_call_service).
Proof.
  apply (proj1 (proj2 expiry_ignores_configured_ttl)).
  - apply one_call_service_observed.
  - vm_compute. reflexivity.
  - reflexivity.
  - lia.
Defined.

(** ** Statistics (C9) *)

Lemma length_filter_le {A} (f : A -> bool) (l : list A) :
  (length (List.filter f l) <= length l)%nat.
Proof. induction l as [|x l IH]; simpl; [lia|]. destruct (f x); simpl; lia. Qed.

(** C9: [get_stats] always returns and changes nothing; it counts as valid the
    entries not yet expired and as finalized the finalized ones among those;
    its rate is 0 when no entry is valid and finalized/valid otherwise, so no
    division by zero takes place, and the rate is a number in [0,1]. *)
Theorem finalization_rate_of_valid_entries (now : datetime) (self : t) :
  exists st,
    get_stats now self = (Ok st, self) /\
    Stats.valid_segments st = length (valid_entries now self) /\
    Stats.finalized_segments st =
      length (List.filter (fun kb => finalized (snd kb)) (valid_entries now self)) /\
    Stats.finalization_rate st =
      (if (Stats.valid_segments st =? 0)%nat then Fin 0
       else fin (inject_Z (Z.of_nat (Stats.finalized_segments st)) /
                 inject_Z (Z.of_nat (Stats.valid_segments st)))) /\
    in_range 0 1 (Stats.finalization_rate st).
Proof.
  exists (stats_of now self). split; [apply get_stats_run|].
  unfold stats_of. cbn [Stats.valid_segments Stats.finalized_segments Stats.finalization_rate].
  split; [reflexivity|]. split; [reflexivity|].
  pose proof (length_filter_le (fun kb => finalized (snd kb)) (valid_entries now self))
    as Hle. fold (finalized_entries now self) in Hle.
  destruct (valid_entries now self) as [|kb valid] eqn:E.
  - split; [reflexivity|]. simpl. split; discriminate.
  - split; [reflexivity|]. unfold fin, in_range. rewrite Qred_correct.
    set (f := length (finalized_entries now self)) in *.
    set (v := length (kb :: valid)) in *.
    assert (Hv : (0 < inject_Z (Z.of_nat v))%Q).
    { replace 0%Q with (inject_Z 0) by reflexivity. rewrite <- Zlt_Qlt.
      unfold v. simpl. lia. }
    split.
    + apply Qle_shift_div_l; [assumption|]. rewrite Qmult_0_l.
      replace 0%Q with (inject_Z 0) by reflexivity. rewrite <- Zle_Qle. lia.
    + apply Qle_shift_div_r; [assumption|]. rewrite Qmult_1_l.
      rewrite <- Zle_Qle. lia.
Qed.

(** ** The reads change nothing (C10) *)

(** C10: [get_segment_score], [get_all_segments] and
    [get_recent_predictions] leave the service exactly as it was, in every
    state and for every argument: no window appears, disappears or changes; a
    query for an absent key answers [None] (or the empty list) and adds no
    entry. *)
Theorem reads_leave_the_store (self : t) (now : datetime) (k : string) (limit : Z)
    (include_invalid include_finalized_only : bool) :
  snd (get_segment_score k now self) = self /\
  snd (get_all_segments include_invalid include_finalized_only now self) = self /\
  snd (get_recent_predictions k limit now self) = self /\
  (buffers self !! k = None ->
   get_segment_score k now self = (Ok None, self) /\
   get_recent_predictions k limit now self = (Ok [], self)).
Proof.
  rewrite get_segment_score_run, get_all_segments_run, get_recent_predictions_run.
  repeat split. all: rewrite H; reflexivity.
Qed.

Lemma reads_leave_the_store_witness :
  get_segment_score "seg_404" 5 default_service = (Ok None, default_service) /\
  get_recent_predictions "seg_404" 10 5 default_service = (Ok [], default_service).
Proof.
  apply (reads_leave_the_store default_service 5 "seg_404" 10 false false).
  reflexivity.
Defined.

(** The mirror's [get_segment], for contrast, deletes the entry it finds
    expired. *)
Lemma cache_get_segment_deletes_expired :
  let cache0 := snd (CacheManager.update_segment "seg_001" (Fin (1 # 2)) 1 (Fin 0) 0
                       (CacheManager.__init__ "memory" 10)) in
  let r := CacheManager.get_segment "seg_001" 10000001 cache0 in
  CacheManager.cache cache0 !! "seg_001" <> None /\
  fst r = Ok None /\ CacheManager.cache (snd r) !! "seg_001" = None.
Proof. vm_compute. repeat split; discriminate. Qed.

(** ** Recent predictions (C5) *)

(** What [get_recent_predictions] answers in general: the first [limit]
    samples of the window in insertion order, oldest first. *)
Lemma get_recent_predictions_oldest_first (self : t) (now : datetime) (k : string)
    (limit : Z) (b : SegmentBuffer.t) :
  buffers self !! k = Some b -> 0 <= limit ->
  fst (get_recent_predictions k limit now self) =
  Ok (map prediction_dict (take (Z.to_nat limit) (window b))).
Proof.
  intros Hb Hl. rewrite get_recent_predictions_run, Hb. unfold slice_to.
  replace (0 <=? limit) with true by (symmetry; now apply Z.leb_le). reflexivity.
Qed.

(** C5: the code at the failing input.  After the three inserts of the
    example (scores 0.7, 0.8, 0.6 in this order), [get_recent_predictions]
    with limit 1 answers the first, oldest, sample and not the last one; with
    limit 3 it lists the samples oldest first. *)
Theorem recent_predictions_are_the_oldest :
  let self := run_trace (map (Ingest "seg_001") example_calls) default_service in
  fst (get_recent_predictions "seg_001" 1 4 self) =
    Ok [prediction_dict (sample_of (plain_call 1 (7 # 10) (9 # 10)))] /\
  fst (get_recent_predictions "seg_001" 3 4 self) =
    Ok (map (fun c => prediction_dict (sample_of c)) example_calls) /\
  fst (get_recent_predictions "seg_404" 3 4 self) = Ok [].
Proof. vm_compute. repeat split. Qed.

(** ** The configured capacity (C6) *)

(** C6: the code at the failing input.  Whatever [segment_buffer_limit] (and
    [ttl_days]) the service is constructed with, every history leaves the same
    buffers as under the defaults: the configured limit is stored and never
    read.  With limit 3, four inserts to one key leave a window of four
    samples that is not finalized. *)
Theorem configured_limit_is_not_used :
  (forall (limit ttl_days : Z) (tr : list op),
     buffers (run_trace tr (__init__ limit ttl_days)) =
     buffers (run_trace tr default_service)) /\
  (let self := run_trace (map (Ingest "seg_001") (take 4 eleven_calls)) (__init__ 3 30) in
   BUFFER_LIMIT self = 3 /\
   fst (on_buffer "seg_001" SegmentBuffer.sample_count 5 self) = Ok 4%nat /\
   fst (on_buffer "seg_001" SegmentBuffer.is_finalized 5 self) = Ok false).
Proof.
  split.
  - intros limit ttl tr. now apply buffers_run_trace_ext.
  - vm_compute. repeat split.
Qed.

(** ** Further properties of the service *)

Lemma ingested_present (self : t) (k : string) (b : SegmentBuffer.t) (c : call) :
  buffers self !! k = Some b ->
  ingested k c self = added (sample_of c) (call_time c) b.
Proof. intros H. unfold ingested. now rewrite H. Qed.

Lemma ingested_absent (self : t) (k : string) (c : call) :
  buffers self !! k = None ->
  ingested k c self =
  SegmentBuffer.mk k (mk_deque 10 [sample_of c]) (aggregate_of [sample_of c])
    (call_time c) (Some (call_time c + timedelta_days 30)).
Proof. intros H. unfold ingested. now rewrite H. Qed.

Lemma valid_at_ingested (self : t) (k : string) (c : call) (t' : datetime) :
  wf self ->
  valid_at t' (ingested k c self) = (t' <? call_time c + timedelta_days 30).
Proof.
  intros Hwf. destruct (wf_buffer_ingested k c self Hwf) as (_ & _ & _ & _ & He).
  unfold valid_at. rewrite He. unfold ingested. now rewrite last_updated_added.
Qed.

Lemma length_window_ingested (self : t) (k : string) (c : call) :
  wf self ->
  length (window (ingested k c self)) =
  Nat.min 10 (S (from_option (fun b => length (window b)) 0%nat (buffers self !! k))).
Proof.
  intros Hwf. unfold ingested.
  destruct (buffers self !! k) as [b|] eqn:E; cbn [from_option default id].
  - destruct (Hwf k b E) as (_ & Hm & Hl & _).
    rewrite length_window_added by (assumption || lia). lia.
  - reflexivity.
Qed.

(** X1: the invariant of the store.  In every state a service reaches by
    ingests of observations and sweeps, a buffer is stored under its own
    segment id, holds between 1 and 10 samples, carries the aggregate computed
    from exactly the samples it holds, and expires 30 days after its last
    update. *)
Theorem observed_buffers_are_consistent (self : t) (k : string) (b : SegmentBuffer.t) :
  observed self -> buffers self !! k = Some b ->
  SegmentBuffer.segment_id b = k /\
  (1 <= length (window b) <= 10)%nat /\
  SegmentBuffer.aggregated_score b = aggregate_of (window b) /\
  SegmentBuffer.expires_at b = Some (SegmentBuffer.last_updated b + timedelta_days 30).
Proof.
  intros Hr Hb. destruct (observed_wf self Hr k b Hb) as (H1 & _ & H2 & H3 & H4).
  auto.
Qed.

Lemma observed_buffers_are_consistent_witness :
  SegmentBuffer.segment_id (buffer_of "seg_001" full_service) = "seg_001" /\
  (1 <= length (window (buffer_of "seg_001" full_service)) <= 10)%nat /\
  SegmentBuffer.aggregated_score (buffer_of "seg_001" full_service) =
    aggregate_of (window (buffer_of "seg_001" full_service)) /\
  SegmentBuffer.expires_at (buffer_of "seg_001" full_service) =
    Some (SegmentBuffer.last_updated (buffer_of "seg_001" full_service) +
          timedelta_days 30).
Proof.
  apply (observed_buffers_are_consistent full_service "seg_001").
  - apply full_service_observed.
  - apply full_service_buffer.
Defined.

(** X2: a query right after an ingest reads back what the ingest returned.
    After [ingest_prediction] of an observation on a service whose history is
    of observations, [get_segment_score] for the same key finds the segment
    with the aggregate, the sample count and the finalized flag the ingest
    returned, last updated at the clock of the ingest, expiring 30 days later,
    and valid exactly at the instants before that expiry. *)
Theorem query_reads_back_ingest (self : t) (k : string) (c : call) (t' : datetime) :
  observed self -> observation c ->
  exists agg n final self' info,
    run_ingest k c self = (Ok (agg, n, final), self') /\
    get_segment_score k t' self' = (Ok (Some info), self') /\
    SegmentScore.comfort_score info = agg /\
    SegmentScore.sample_count info = n /\
    SegmentScore.is_finalized info = final /\
    SegmentScore.last_updated info = call_time c /\
    SegmentScore.expires_at info = Some (call_time c + timedelta_days 30) /\
    SegmentScore.is_valid info = (t' <? call_time c + timedelta_days 30).
Proof.
  intros Hr _. pose proof (observed_wf self Hr) as Hwf.
  set (b := ingested k c self).
  exists (SegmentBuffer.aggregated_score b), (length (window b)), (finalized b),
    (set_buffers (insert k b) self), (score_of t' k b).
  split; [apply run_ingest_eq|]. split.
  - rewrite get_segment_score_run.
    replace (buffers (set_buffers (insert k b) self) !! k) with (Some b); [reflexivity|].
    destruct self; simpl. symmetry. apply lookup_insert_eq.
  - destruct (wf_buffer_ingested k c self Hwf) as (_ & _ & _ & _ & He).
    fold b in He. unfold score_of. simpl.
    repeat split; try reflexivity.
    + unfold b, ingested. apply last_updated_added.
    + rewrite He. unfold b, ingested. now rewrite last_updated_added.
    + apply valid_at_ingested. assumption.
Qed.

Lemma query_reads_back_ingest_witness :
  exists agg n final self' info,
    run_ingest "seg_001" (plain_call 11 (11 # 100) 1) full_service =
      (Ok (agg, n, final), self') /\
    get_segment_score "seg_001" 12 self' = (Ok (Some info), self') /\
    SegmentScore.comfort_score info = agg /\
    SegmentScore.sample_count info = n /\
    SegmentScore.is_finalized info = final /\
    SegmentScore.last_updated info = 11 /\
    SegmentScore.expires_at info = Some (11 + timedelta_days 30) /\
    SegmentScore.is_valid info = (12 <? 11 + timedelta_days 30).
Proof.
  apply (query_reads_back_ingest full_service "seg_001" (plain_call 11 (11 # 100) 1) 12).
  - apply full_service_observed.
  - simpl. repeat split; discriminate.
Defined.

(** X3: the count an ingest returns.  On a service whose history is of
    observations, the sample count [ingest_prediction] returns for an
    observation is one more than the key's count before the call (0 for a new
    key), capped at 10. *)
Theorem ingest_returns_capped_count (self : t) (k : string) (c : call) :
  observed self -> observation c ->
  exists agg final self',
    run_ingest k c self =
    (Ok (agg,
         Nat.min 10 (S (from_option (fun b => length (window b)) 0%nat
                          (buffers self !! k))),
         final), self').
Proof.
  intros Hr _. rewrite run_ingest_eq.
  rewrite length_window_ingested by now apply observed_wf.
  eauto.
Qed.

Lemma ingest_returns_capped_count_witness :
  exists agg final self',
    run_ingest "seg_001" (plain_call 11 (11 # 100) 1) full_service =
    (Ok (agg,
         Nat.min 10 (S (from_option (fun b => length (window b)) 0%nat
                          (buffers full_service !! "seg_001"))),
         final), self').
Proof.
  apply (ingest_returns_capped_count full_service).
  - apply full_service_observed.
  - simpl. repeat split; discriminate.
Defined.

Lemma ingested_other_key (self : t) (k k' : string) (b : SegmentBuffer.t) (c : call) :
  k' <> k -> ingested k c (set_buffers (insert k' b) self) = ingested k c self.
Proof.
  intros Hne. unfold ingested. destruct self as [lim ttl m]. simpl.
  now rewrite lookup_insert_ne.
Qed.

Lemma run_op_ingest_eq (k : string) (c : call) (self : t) :
  run_op (Ingest k c) self = set_buffers (insert k (ingested k c self)) self.
Proof. simpl. now rewrite run_ingest_eq. Qed.

(** X4: ingests to different keys do not see each other.  For two distinct
    keys the two ingests leave the same service in either order, and each
    returns what it returns when it runs alone. *)
Theorem ingests_to_distinct_keys_commute (self : t) (k1 k2 : string) (c1 c2 : call) :
  k1 <> k2 ->
  run_op (Ingest k2 c2) (run_op (Ingest k1 c1) self) =
    run_op (Ingest k1 c1) (run_op (Ingest k2 c2) self) /\
  fst (run_ingest k2 c2 (run_op (Ingest k1 c1) self)) = fst (run_ingest k2 c2 self) /\
  fst (run_ingest k1 c1 (run_op (Ingest k2 c2) self)) = fst (run_ingest k1 c1 self).
Proof.
  intros Hne. rewrite !run_op_ingest_eq, !run_ingest_eq.
  rewrite !ingested_other_key by congruence.
  split; [|split; reflexivity].
  destruct self as [lim ttl m]. unfold set_buffers. simpl. f_equal.
  apply insert_insert_ne. congruence.
Qed.

Lemma ingests_to_distinct_keys_commute_witness :
  run_op (Ingest "seg_002" (plain_call 2 (1 # 2) 1))
    (run_op (Ingest "seg_001" (plain_call 1 (1 # 4) 1)) default_service) =
  run_op (Ingest "seg_001" (plain_call 1 (1 # 4) 1))
    (run_op (Ingest "seg_002" (plain_call 2 (1 # 2) 1)) default_service).
Proof.
  apply (ingests_to_distinct_keys_commute default_service "seg_001" "seg_002").
  discriminate.
Defined.

(** After a sweep at [now], every entry left is valid at [now] and before. *)
Lemma swept_entries_valid (now t' : datetime) (self : t) (k : string)
    (b : SegmentBuffer.t) :
  t' <= now ->
  buffers (snd (cleanup_expired now self)) !! k = Some b -> valid_at t' b = true.
Proof.
  intros Ht. rewrite cleanup_expired_run. destruct self as [lim ttl m]. simpl.
  intros [_ Hv]%map_lookup_filter_Some. simpl in Hv. unfold valid_at in *.
  destruct (SegmentBuffer.expires_at b); [|discriminate].
  apply Z.ltb_lt in Hv. apply Z.ltb_lt. lia.
Qed.

Lemma all_valid_no_expired (now : datetime) (self : t) :
  (forall k b, buffers self !! k = Some b -> valid_at now b = true) ->
  expired_entries now self = [] /\
  filter (fun kb => valid_at now (snd kb) = true) (buffers self) = buffers self.
Proof.
  intros H. split.
  - unfold expired_entries, entries.
    assert (Hall : Forall (fun kb => valid_at now (snd kb) = true)
                     (map_to_list (buffers self))).
    { apply Forall_forall. intros [k b] Hin. apply (H k).
      now apply elem_of_map_to_list. }
    induction Hall as [|kb l Hkb _ IH]; [reflexivity|].
    simpl. rewrite Hkb. exact IH.
  - apply map_filter_id. intros k b Hb. simpl. now apply (H k).
Qed.

(** X5: a sweep is idempotent.  A second [cleanup_expired], at the instant of
    the first or at any earlier one, removes nothing: it returns 0 and leaves
    the service as the first sweep left it. *)
Theorem second_sweep_removes_nothing (self : t) (now t' : datetime) :
  t' <= now ->
  cleanup_expired t' (snd (cleanup_expired now self)) =
  (Ok 0%nat, snd (cleanup_expired now self)).
Proof.
  intros Ht. rewrite (cleanup_expired_run t').
  destruct (all_valid_no_expired t' (snd (cleanup_expired now self))) as [He Hf].
  { intros k b. now apply swept_entries_valid. }
  rewrite He. simpl. f_equal.
  destruct (snd (cleanup_expired now self)) as [lim ttl m]. unfold set_buffers.
  simpl in *. now rewrite Hf.
Qed.

Lemma second_sweep_removes_nothing_witness :
  cleanup_expired 5 (snd (cleanup_expired (1 + timedelta_days 30) one_call_service)) =
  (Ok 0%nat, snd (cleanup_expired (1 + timedelta_days 30) one_call_service)).
Proof.
  apply (second_sweep_removes_nothing one_call_service). unfold timedelta_days. lia.
Defined.

Lemma filter_filter_length {A} (f g : A -> bool) (l : list A) :
  length (List.filter f (List.filter g l)) =
  length (List.filter (fun x => g x && f x) l).
Proof.
  induction l as [|x l IH]; [reflexivity|]. simpl.
  destruct (g x); simpl; [|exact IH]. destruct (f x); simpl; now rewrite IH.
Qed.

Lemma filter_ext_length {A} (f g : A -> bool) (l : list A) :
  (forall x, f x = g x) -> length (List.filter f l) = length (List.filter g l).
Proof.
  intros H. induction l as [|x l IH]; [reflexivity|]. simpl. rewrite H.
  destruct (g x); simpl; now rewrite IH.
Qed.

(** X6: the statistics count what the listing lists.  At one instant,
    [get_stats] reports as total the number of segments
    [get_all_segments(include_invalid=True)] lists, as valid the number the
    default listing lists, and as finalized the number the listing of the
    finalized valid segments lists. *)
Theorem stats_count_the_listings (self : t) (now : datetime) :
  exists st every valid final,
    get_stats now self = (Ok st, self) /\
    get_all_segments true false now self = (Ok every, self) /\
    get_all_segments false false now self = (Ok valid, self) /\
    get_all_segments false true now self = (Ok final, self) /\
    Stats.total_segments st = length every /\
    Stats.valid_segments st = length valid /\
    Stats.finalized_segments st = length final.
Proof.
  do 4 eexists. rewrite get_stats_run, !get_all_segments_run.
  repeat (split; [reflexivity|]). unfold stats_of. simpl.
  rewrite !length_map. unfold finalized_entries, valid_entries, entries.
  split; [|split].
  - symmetry. clear. induction (map_to_list (buffers self)) as [|x l IH];
      [reflexivity|]. simpl. now rewrite IH.
  - apply filter_ext_length. intros [k b]. unfold listed. simpl.
    now destruct (valid_at now b).
  - rewrite filter_filter_length. apply filter_ext_length. intros [k b].
    unfold listed. simpl. destruct (valid_at now b), (finalized b); reflexivity.
Qed.

(** X17: the listing agrees with the query.  Every dictionary
    [get_all_segments] lists is, for its segment id, exactly what
    [get_segment_score] answers at the same instant; the default listing holds
    only valid segments, and the listing of finalized segments only finalized
    ones. *)
Theorem listing_agrees_with_query (self : t) (now : datetime)
    (include_invalid include_finalized_only : bool) :
  exists listing,
    get_all_segments include_invalid include_finalized_only now self =
      (Ok listing, self) /\
    Forall (fun info =>
      get_segment_score (SegmentScore.segment_id info) now self =
        (Ok (Some info), self) /\
      (include_invalid = false -> SegmentScore.is_valid info = true) /\
      (include_finalized_only = true -> SegmentScore.is_finalized info = true))
      listing.
Proof.
  eexists. split; [apply get_all_segments_run|].
  apply Forall_map, Forall_forall. intros [k b] Hin.
  apply list_elem_of_In, filter_In in Hin as [Hin Hl].
  apply list_elem_of_In, elem_of_map_to_list in Hin.
  cbn [fst snd] in *. split; [|split].
  - unfold score_of at 1. cbn [SegmentScore.segment_id].
    rewrite get_segment_score_run, Hin. reflexivity.
  - intros ->. unfold listed in Hl. simpl.
    destruct (valid_at now b); [reflexivity|].
    now rewrite andb_false_r in Hl.
  - intros ->. unfold listed in Hl. simpl.
    destruct (finalized b); [reflexivity|]. discriminate.
Qed.

Lemma listing_agrees_with_query_witness :
  exists listing,
    get_all_segments false true 20 full_service = (Ok listing, full_service) /\
    Forall (fun info =>
      get_segment_score (SegmentScore.segment_id info) 20 full_service =
        (Ok (Some info), full_service) /\
      (false = false -> SegmentScore.is_valid info = true) /\
      (true = true -> SegmentScore.is_finalized info = true))
      listing.
Proof.
  apply (listing_agrees_with_query full_service 20 false true).
Defined.

(** X7: a swept key starts over.  When a key has expired, a sweep followed by
    an ingest to that key leaves a window holding only the new sample, with
    count 1 and not finalized, whatever the window held before the sweep. *)
Theorem ingest_after_sweep_starts_over (self : t) (k : string) (b : SegmentBuffer.t)
    (later : datetime) (c : call) :
  buffers self !! k = Some b -> valid_at later b = false ->
  exists b',
    buffers (run_trace [Cleanup later; Ingest k c] self) !! k = Some b' /\
    window b' = [sample_of c] /\
    finalized b' = false /\
    fst (run_ingest k c (run_op (Cleanup later) self)) =
      Ok (aggregate_of [sample_of c], 1%nat, false).
Proof.
  intros Hb Hv.
  assert (Habs : buffers (run_op (Cleanup later) self) !! k = None).
  { rewrite buffers_run_cleanup. apply map_lookup_filter_None. right.
    intros b' Hb'. simpl. rewrite Hb in Hb'. injection Hb' as <-.
    rewrite Hv. discriminate. }
  unfold run_trace. cbn [foldl]. rewrite buffers_run_ingest, lookup_insert_eq.
  rewrite run_ingest_eq, (ingested_absent _ _ _ Habs).
  eexists. split; [reflexivity|]. repeat split.
Qed.

Lemma ingest_after_sweep_starts_over_witness :
  exists b',
    buffers (run_trace [Cleanup (11 + timedelta_days 30);
                        Ingest "seg_001" (plain_call 11 (1 # 2) 1)] full_service)
      !! "seg_001" = Some b' /\
    window b' = [sample_of (plain_call 11 (1 # 2) 1)] /\
    finalized b' = false /\
    fst (run_ingest "seg_001" (plain_call 11 (1 # 2) 1)
           (run_op (Cleanup (11 + timedelta_days 30)) full_service)) =
      Ok (aggregate_of [sample_of (plain_call 11 (1 # 2) 1)], 1%nat, false).
Proof.
  apply (ingest_after_sweep_starts_over full_service "seg_001"
           (buffer_of "seg_001" full_service)).
  - apply full_service_buffer.
  - vm_compute. reflexivity.
Defined.

(** X8: an ingest does not look at the expiry.  On a service whose history
    is of observations, the ingest of an observation to a key that is present
    appends to the window it finds, whether or not that window has expired (an
    expired window that was not swept keeps its samples): the new window is
    the last 10 of the old samples followed by the new one, its aggregate is
    computed from them, and it is valid at the instant of the ingest. *)
Theorem ingest_keeps_expired_samples (self : t) (k : string) (b : SegmentBuffer.t)
    (c : call) :
  observed self -> observation c -> buffers self !! k = Some b ->
  exists b',
    buffers (run_op (Ingest k c) self) !! k = Some b' /\
    window b' = lastn 10 (window b ++ [sample_of c]) /\
    SegmentBuffer.aggregated_score b' = aggregate_of (window b') /\
    valid_at (call_time c) b' = true.
Proof.
  intros Hr _ Hb. pose proof (observed_wf self Hr) as Hwf.
  destruct (Hwf k b Hb) as (_ & Hm & Hl & _).
  exists (ingested k c self). rewrite buffers_run_ingest, lookup_insert_eq.
  split; [reflexivity|].
  destruct (wf_buffer_ingested k c self Hwf) as (_ & _ & _ & Hagg & _).
  split; [|split; [exact Hagg|]].
  - rewrite (ingested_present _ _ _ _ Hb), window_added, Hm.
    pose proof (lastn_snoc 10 (window b) (sample_of c)) as Hs.
    rewrite (lastn_short 10 (window b)) in Hs by lia. apply Hs. lia.
  - rewrite valid_at_ingested by assumption. apply Z.ltb_lt.
    unfold timedelta_days. lia.
Qed.

Lemma ingest_keeps_expired_samples_witness :
  exists b',
    buffers (run_op (Ingest "seg_001" (plain_call (11 + timedelta_days 30) (1 # 2) 1))
               full_service) !! "seg_001" = Some b' /\
    window b' = lastn 10 (window (buffer_of "seg_001" full_service) ++
                          [sample_of (plain_call (11 + timedelta_days 30) (1 # 2) 1)]) /\
    SegmentBuffer.aggregated_score b' = aggregate_of (window b') /\
    valid_at (11 + timedelta_days 30) b' = true.
Proof.
  apply (ingest_keeps_expired_samples full_service "seg_001"
           (buffer_of "seg_001" full_service)
           (plain_call (11 + timedelta_days 30) (1 # 2) 1)).
  - apply full_service_observed.
  - simpl. repeat split; discriminate.
  - apply full_service_buffer.
Defined.

(** ** The aggregate of weighted samples *)

Lemma Forall_window_added (P : VehicleSample -> Prop) (s : VehicleSample)
    (now : datetime) (b : SegmentBuffer.t) :
  Forall P (window b) -> P s -> Forall P (window (added s now b)).
Proof.
  intros Hall Hs. rewrite window_added.
  assert (H : Forall P (window b ++ [s])) by (apply Forall_app; auto).
  destruct (_ <? _)%nat; [|exact H].
  destruct (window b ++ [s]); [constructor|]. now apply Forall_cons in H as [_ H].
Qed.

(** What holds of the samples the calls ingest holds of the samples kept. *)
Lemma window_samples_invariant (P : VehicleSample -> Prop) (tr : list op) (self : t) :
  Forall (fun o => match o with Ingest _ c => P (sample_of c) | Cleanup _ => True end) tr ->
  (forall k b, buffers self !! k = Some b -> Forall P (window b)) ->
  forall k b, buffers (run_trace tr self) !! k = Some b -> Forall P (window b).
Proof.
  revert self. induction tr as [|o tr IH]; intros self Hall Hinv; [exact Hinv|].
  apply Forall_cons in Hall as [Ho Hall]. rewrite run_trace_cons.
  apply IH; [exact Hall|]. intros k b. destruct o as [k' c|now].
  - rewrite buffers_run_ingest. destruct (decide (k' = k)) as [->|Hne].
    + rewrite lookup_insert_eq. intros [= <-]. unfold ingested.
      apply Forall_window_added; [|exact Ho].
      destruct (buffers self !! k) as [b0|] eqn:E; simpl; [now apply (Hinv k)|].
      constructor.
    + rewrite lookup_insert_ne by assumption. apply Hinv.
  - rewrite buffers_run_cleanup. intros [H _]%map_lookup_filter_Some. now apply (Hinv k).
Qed.

Lemma weighted_sample_fin (s : VehicleSample) :
  weighted_sample s ->
  finite_sample s /\ (0 <= score_q s <= 1)%Q /\ (0 < conf_q s <= 1)%Q.
Proof.
  intros (Hs & Hc & Hz). unfold finite_sample, score_q, conf_q.
  destruct (comfort_score s) as [q| | |]; try contradiction.
  destruct (confidence s) as [q'| | |]; try contradiction.
  simpl in *. repeat split; try tauto.
  destruct Hc as [H0 _]. apply Qle_lteq in H0 as [?|E]; [assumption|].
  symmetry in E. apply Qeq_bool_iff in E. congruence.
Qed.

Lemma weighted_samples_sum_pos (l : list VehicleSample) :
  l <> [] -> Forall weighted_sample l -> (0 < Qsum (map conf_q l))%Q.
Proof.
  intros Hne Hall. apply Qsum_pos.
  - rewrite Forall_map. eapply Forall_impl; [exact Hall|].
    intros s Hs. apply weighted_sample_fin in Hs as (_ & _ & H & _).
    now apply Qlt_le_weak.
  - destruct Hall as [|s l Hs _]; [congruence|]. left.
    apply weighted_sample_fin in Hs as (_ & _ & H & _).
    intros E. rewrite E in H. discriminate.
Qed.

Lemma weighted_mean_bounds (l : list VehicleSample) (S : Q) :
  (0 < S)%Q -> Forall weighted_sample l ->
  (0 <= Qsum (zip_with Qmult (map (fun s => conf_q s / S) l) (map score_q l)) /\
   Qsum (zip_with Qmult (map (fun s => conf_q s / S) l) (map score_q l)) <=
   Qsum (map (fun s => conf_q s / S) l))%Q.
Proof.
  intros HS. induction 1 as [|s l Hs _ [IH0 IH1]]; simpl; [split; apply Qle_refl|].
  apply weighted_sample_fin in Hs as (_ & [Hs0 Hs1] & [Hc0 _]).
  assert (Hw : (0 <= conf_q s / S)%Q).
  { apply Qle_shift_div_l; [assumption|]. rewrite Qmult_0_l. now apply Qlt_le_weak. }
  assert (H0 : (0 <= conf_q s / S * score_q s)%Q) by now apply Qmult_le_0_compat.
  assert (H1 : (conf_q s / S * score_q s <= conf_q s / S)%Q).
  { rewrite <- (Qmult_1_r (conf_q s / S)) at 2.
    rewrite !(Qmult_comm (conf_q s / S)). now apply Qmult_le_compat_r. }
  split; lra.
Qed.

Lemma aggregate_of_in_unit (l : list VehicleSample) :
  l <> [] -> Forall weighted_sample l -> in_range 0 1 (aggregate_of l).
Proof.
  intros Hne Hall. pose proof (weighted_samples_sum_pos l Hne Hall) as Hpos.
  assert (Hnz : ~ (Qsum (map conf_q l) == 0)%Q)
    by (intros E; rewrite E in Hpos; discriminate).
  rewrite aggregate_of_weighted_mean; [|
    eapply Forall_impl; [exact Hall | intros s Hs; now apply weighted_sample_fin] |
    assumption].
  unfold fin, in_range. rewrite Qred_correct.
  destruct (weighted_mean_bounds l _ Hpos Hall) as [H0 H1].
  pose proof (normalized_weights_sum l Hnz) as Hone.
  unfold weighted_mean, normalized_weights in *. lra.
Qed.

(** X9: with weighted inputs the aggregate stays in range.  If every ingest
    of a history carries a score in [0,1] and a confidence in (0,1], then every
    aggregate the service stores is a number in [0,1]. *)
Theorem aggregate_stays_in_unit_interval (limit ttl_days : Z) (tr : list op)
    (k : string) (b : SegmentBuffer.t) :
  Forall weighted_op tr ->
  buffers (run_trace tr (__init__ limit ttl_days)) !! k = Some b ->
  in_range 0 1 (SegmentBuffer.aggregated_score b).
Proof.
  intros Hall Hb.
  assert (Hwf : wf (run_trace tr (__init__ limit ttl_days))).
  { apply reachable_wf. exists limit, ttl_days, tr. reflexivity. }
  destruct (Hwf k b Hb) as (_ & _ & Hl & Hagg & _). rewrite Hagg.
  apply aggregate_of_in_unit.
  - intros E. rewrite E in Hl. simpl in Hl. lia.
  - apply (window_samples_invariant weighted_sample tr (__init__ limit ttl_days)) with k.
    + eapply Forall_impl; [exact Hall|]. intros [k' c|now]; simpl; auto.
    + intros k' b' H. simpl in H. rewrite lookup_empty in H. discriminate.
    + exact Hb.
Qed.

Lemma aggregate_stays_in_unit_interval_witness :
  in_range 0 1 (SegmentBuffer.aggregated_score (buffer_of "seg_001" full_service)).
Proof.
  apply (aggregate_stays_in_unit_interval 10 30
           (map (Ingest "seg_001") (take 10 eleven_calls)) "seg_001").
  - repeat constructor; simpl; discriminate.
  - vm_compute. reflexivity.
Defined.

(** ** The mirror *)

Section DeleteKeys.

Context {V : Type}.
Implicit Types (m : gmap string V) (l : list string).

Lemma lookup_delete_keys l m (k : string) :
  delete_keys l m !! k = if decide (k ∈ l) then None else m !! k.
Proof.
  revert m. induction l as [|x l IH]; intros m; simpl.
  - destruct (decide (k ∈ [])) as [H|]; [inversion H | reflexivity].
  - unfold delete_keys in *. simpl. rewrite IH. destruct (decide (k ∈ l)) as [Hin|Hnin].
    + rewrite decide_True by now right. reflexivity.
    + destruct (decide (k = x)) as [->|Hne].
      * rewrite decide_True by left. apply lookup_delete_eq.
      * rewrite decide_False by (intros [?|?]%elem_of_cons; contradiction).
        now apply lookup_delete_ne.
Qed.

Lemma size_delete_keys l m :
  NoDup l -> (forall k, k ∈ l -> is_Some (m !! k)) ->
  (size (delete_keys l m) + length l = size m)%nat.
Proof.
  revert m. induction l as [|x l IH]; intros m Hnd Hin; simpl; [unfold delete_keys; simpl; lia|].
  apply NoDup_cons in Hnd as [Hx Hnd].
  unfold delete_keys in *. simpl.
  rewrite Nat.add_succ_r, IH; [|assumption|].
  - rewrite map_size_delete_Some by (apply Hin; left).
    assert (size m <> 0)%nat by (apply map_size_ne_0_lookup_2 with x; apply Hin; left).
    lia.
  - intros k Hk. rewrite lookup_delete_ne by (intros ->; contradiction).
    apply Hin. now right.
Qed.

Lemma elem_of_filter_map_to_list (f : V -> bool) m (k : string) (v : V) :
  (k, v) ∈ List.filter (fun kv => f (snd kv)) (map_to_list m) <->
  m !! k = Some v /\ f v = true.
Proof.
  rewrite list_elem_of_In, filter_In, <- list_elem_of_In, elem_of_map_to_list.
  reflexivity.
Qed.

Lemma elem_of_filter_keys (f : V -> bool) m (k : string) :
  k ∈ map fst (List.filter (fun kv => f (snd kv)) (map_to_list m)) <->
  exists v, m !! k = Some v /\ f v = true.
Proof.
  rewrite list_elem_of_In, in_map_iff. split.
  - intros [[k' v] [<- Hin]]. exists v.
    now apply (elem_of_filter_map_to_list f), list_elem_of_In.
  - intros [v Hv]. exists (k, v). split; [reflexivity|].
    now apply list_elem_of_In, (elem_of_filter_map_to_list f).
Qed.

(** Deleting the keys a test rejects leaves the entries it accepts. *)
Lemma delete_rejected_keys (f : V -> bool) m :
  delete_keys (map fst (List.filter (fun kv => negb (f (snd kv))) (map_to_list m))) m =
  filter (fun kv => f (snd kv) = true) m.
Proof.
  apply map_eq. intros k. rewrite lookup_delete_keys.
  destruct (decide (k ∈ _)) as [Hin|Hnin].
  - apply (elem_of_filter_keys (fun v => negb (f v))) in Hin as [v [Hv Hf]].
    symmetry. apply map_lookup_filter_None. right. intros v' Hv'. simpl.
    rewrite Hv in Hv'. injection Hv' as <-. apply negb_true_iff in Hf. congruence.
  - destruct (m !! k) as [v|] eqn:Hv.
    + symmetry. apply map_lookup_filter_Some. split; [assumption|]. simpl.
      destruct (f v) eqn:Hf; [reflexivity|].
      exfalso. apply Hnin. apply (elem_of_filter_keys (fun v => negb (f v))).
      exists v. now rewrite Hf.
    + symmetry. apply map_lookup_filter_None. now left.
Qed.

(** Inserting the pairs of a list without repeated keys, one by one. *)
Lemma lookup_foldl_insert (l : list (string * V)) m (k : string) (v : V) :
  NoDup (map fst l) ->
  foldl (fun m kv => <[fst kv := snd kv]> m) m l !! k = Some v <->
  (k, v) ∈ l \/ ((k ∉ map fst l) /\ m !! k = Some v).
Proof.
  revert m. induction l as [|[k' v'] l IH]; intros m Hnd; simpl.
  - split; [intros H; right; split; [intros Hin; inversion Hin | exact H]|].
    intros [Hin|[_ H]]; [inversion Hin | exact H].
  - apply NoDup_cons in Hnd as [Hk' Hnd]. rewrite IH by assumption. split.
    + intros [Hin|[Hnin Hm]]; [left; now right|].
      destruct (decide (k' = k)) as [->|Hne].
      * rewrite lookup_insert_eq in Hm. injection Hm as ->. left. left.
      * rewrite lookup_insert_ne in Hm by assumption. right. split; [|exact Hm].
        intros [?|?]%elem_of_cons; [congruence | contradiction].
    + intros [Hin|[Hnin Hm]].
      * apply elem_of_cons in Hin as [[= -> ->]|Hin]; [|now left].
        right. split; [exact Hk' | apply lookup_insert_eq].
      * right. assert (k' <> k) by (intros ->; apply Hnin; left).
        split; [intros Hin; apply Hnin; now right|].
        now rewrite lookup_insert_ne.
Qed.

End DeleteKeys.

Section MirrorMethods.

Variables (now : datetime) (self : CacheManager.t).

Lemma for_each_del_entry (l : list string) (s : CacheManager.t) :
  NoDup l -> (forall k, k ∈ l -> is_Some (CacheManager.cache s !! k)) ->
  for_each l CacheManager.del_entry now s =
  (Ok tt, CacheManager.set_cache (delete_keys l) s).
Proof.
  revert s. induction l as [|x l IH]; intros s Hnd Hin.
  - destruct s; reflexivity.
  - apply NoDup_cons in Hnd as [Hx Hnd]. simpl.
    unfold mbind at 1, M_bind. unfold CacheManager.del_entry at 1.
    unfold mbind at 1, M_bind, get_self.
    destruct (Hin x) as [e He]; [left|]. rewrite He. unfold modify_self.
    rewrite IH; [destruct s; reflexivity | assumption |].
    intros k Hk. destruct s; simpl in *.
    rewrite lookup_delete_ne by (intros ->; contradiction).
    apply Hin. now right.
Qed.

Lemma cleanup_loop (l : list (string * CacheManager.entry)) (acc : list string) :
  for_fold l acc
    (fun expired_keys item =>
       now' ← utcnow;
       if CacheManager.expires_at (snd item) <? now'
       then mret (expired_keys ++ [fst item]) else mret expired_keys) now self =
  (Ok (acc ++ map fst (List.filter (fun kv => negb (entry_valid_at now (snd kv))) l)),
   self).
Proof.
  revert acc. induction l as [|[k e] l IH]; intros acc.
  - simpl. now rewrite app_nil_r.
  - cbn [for_fold]. unfold mbind at 1, M_bind. unfold mbind at 1, M_bind, utcnow.
    cbn [List.filter snd fst]. unfold entry_valid_at at 1.
    rewrite Z.leb_antisym, negb_involutive.
    destruct (CacheManager.expires_at e <? now); unfold mret, M_ret.
    + rewrite IH. simpl. now rewrite <- app_assoc.
    + apply IH.
Qed.

Lemma get_all_loop (l : list (string * CacheManager.entry))
    (acc : gmap string CacheManager.entry) :
  for_fold l acc
    (fun valid item =>
       now' ← utcnow;
       if now' <=? CacheManager.expires_at (snd item)
       then mret (<[fst item := snd item]> valid) else mret valid) now self =
  (Ok (foldl (fun m kv => <[fst kv := snd kv]> m) acc
         (List.filter (fun kv => entry_valid_at now (snd kv)) l)), self).
Proof.
  revert acc. induction l as [|[k e] l IH]; intros acc; [reflexivity|].
  cbn [for_fold]. unfold mbind at 1, M_bind. unfold mbind at 1, M_bind, utcnow.
  cbn [List.filter snd fst]. unfold entry_valid_at at 1.
  destruct (now <=? CacheManager.expires_at e); unfold mret, M_ret; apply IH.
Qed.

Lemma mirror_cleanup_expired_run :
  CacheManager.cleanup_expired now self =
  (Ok (length (List.filter (fun kv => negb (entry_valid_at now (snd kv)))
                 (map_to_list (CacheManager.cache self)))),
   CacheManager.set_cache (filter (fun kv => entry_valid_at now (snd kv) = true)) self).
Proof.
  unfold CacheManager.cleanup_expired.
  unfold mbind at 1, M_bind, get_self. unfold mbind at 1, M_bind.
  rewrite cleanup_loop. simpl app. unfold mbind at 1, M_bind.
  rewrite for_each_del_entry.
  - unfold mret, M_ret. rewrite length_map. f_equal.
    pose proof (delete_rejected_keys (entry_valid_at now) (CacheManager.cache self)) as E.
    destruct self as [bk ttl m]. unfold CacheManager.set_cache. simpl in *.
    now rewrite E.
  - apply NoDup_fst_filter, NoDup_fst_map_to_list.
  - intros k Hk.
    apply (elem_of_filter_keys (fun e => negb (entry_valid_at now e))) in Hk
      as [e [He _]]. eauto.
Qed.

Lemma mirror_get_all_run :
  CacheManager.get_all now self =
  (Ok (filter (fun kv => entry_valid_at now (snd kv) = true) (CacheManager.cache self)),
   self).
Proof.
  unfold CacheManager.get_all. unfold mbind at 1, M_bind, get_self.
  rewrite get_all_loop. f_equal. f_equal.
  apply map_eq. intros k. apply option_eq. intros e.
  rewrite lookup_foldl_insert
    by (apply NoDup_fst_filter, NoDup_fst_map_to_list).
  rewrite map_lookup_filter_Some. simpl.
  rewrite (elem_of_filter_map_to_list (entry_valid_at now)).
  rewrite lookup_empty. intuition discriminate.
Qed.

Lemma mirror_size_after_cleanup :
  (length (List.filter (fun kv => negb (entry_valid_at now (snd kv)))
             (map_to_list (CacheManager.cache self))) +
   size (filter (fun kv => entry_valid_at now (snd kv) = true)
           (CacheManager.cache self)) =
   size (CacheManager.cache self))%nat.
Proof.
  rewrite <- (delete_rejected_keys (entry_valid_at now)), Nat.add_comm.
  rewrite <- (length_map fst).
  apply size_delete_keys.
  - apply NoDup_fst_filter, NoDup_fst_map_to_list.
  - intros k Hk.
    apply (elem_of_filter_keys (fun e => negb (entry_valid_at now e))) in Hk
      as [e [He _]]. eauto.
Qed.

End MirrorMethods.

Lemma update_segment_run (k : string) (score : pyfloat) (n : nat) (conf : pyfloat)
    (now : datetime) (self : CacheManager.t) :
  CacheManager.update_segment k score n conf now self =
  (Ok tt,
   CacheManager.set_cache
     (insert k (written_entry score n conf (CacheManager.ttl_seconds self) now)) self).
Proof. reflexivity. Qed.

Lemma get_segment_run (k : string) (t' : datetime) (self : CacheManager.t) :
  CacheManager.get_segment k t' self =
  match CacheManager.cache self !! k with
  | None => (Ok None, self)
  | Some e =>
      if entry_valid_at t' e then (Ok (Some e), self)
      else (Ok None, CacheManager.set_cache (delete k) self)
  end.
Proof.
  unfold CacheManager.get_segment. run_M.
  destruct (CacheManager.cache self !! k) as [e|]; [|reflexivity].
  unfold entry_valid_at. rewrite Z.leb_antisym.
  destruct (CacheManager.expires_at e <? t'); reflexivity.
Qed.

(** X10: what is written to the mirror is read back until it expires, and is
    gone after.  After [update_segment] at clock [now], [get_segment] for the
    same key returns the written values, stamped [now], at every instant up
    to and including [now + ttl_seconds], and leaves the mirror as it is; at a
    later instant it returns [None] and deletes the entry, so that the key is
    then absent at whatever instant it is asked for. *)
Theorem mirror_reads_back_until_expiry (self : CacheManager.t) (k : string)
    (score : pyfloat) (n : nat) (conf : pyfloat) (now t' : datetime) :
  let self1 := snd (CacheManager.update_segment k score n conf now self) in
  let e := written_entry score n conf (CacheManager.ttl_seconds self) now in
  (t' <= now + timedelta_seconds (CacheManager.ttl_seconds self) ->
   CacheManager.get_segment k t' self1 = (Ok (Some e), self1)) /\
  (now + timedelta_seconds (CacheManager.ttl_seconds self) < t' ->
   exists self2,
     CacheManager.get_segment k t' self1 = (Ok None, self2) /\
     CacheManager.cache self2 = delete k (CacheManager.cache self) /\
     forall t'', CacheManager.get_segment k t'' self2 = (Ok None, self2)).
Proof.
  intros self1 e. unfold self1. rewrite update_segment_run. fold e. simpl.
  assert (Hk : CacheManager.cache (CacheManager.set_cache (insert k e) self) !! k = Some e)
    by (destruct self; simpl; apply lookup_insert_eq).
  split; intros Ht; rewrite get_segment_run, Hk.
  - replace (entry_valid_at t' e) with true; [reflexivity|].
    symmetry. apply Z.leb_le. exact Ht.
  - replace (entry_valid_at t' e) with false
      by (symmetry; apply Z.leb_gt; exact Ht).
    eexists. split; [reflexivity|]. split.
    + destruct self; simpl. apply delete_insert_eq.
    + intros t''. rewrite get_segment_run.
      replace (CacheManager.cache _ !! k) with (@None CacheManager.entry);
        [reflexivity|].
      destruct self; simpl. symmetry. apply lookup_delete_eq.
Qed.

Lemma mirror_reads_back_until_expiry_witness :
  CacheManager.get_segment "seg_001" 10000000 one_entry_cache =
  (Ok (Some (written_entry (Fin (1 # 2)) 1 (Fin 0) 10 0)), one_entry_cache).
Proof.
  apply (mirror_reads_back_until_expiry (CacheManager.__init__ "memory" 10) "seg_001"
           (Fin (1 # 2)) 1 (Fin 0) 0 10000000).
  unfold timedelta_seconds. simpl. lia.
Defined.

(** X11: the sweep of the mirror.  [cleanup_expired] always returns; it removes
    exactly the entries whose expiry instant lies before the clock (an entry
    expiring at the clock stays), returns how many it removed, and a second
    sweep at the same instant removes nothing. *)
Theorem mirror_sweep_removes_the_expired (self : CacheManager.t) (now : datetime) :
  exists n self',
    CacheManager.cleanup_expired now self = (Ok n, self') /\
    (forall k e, CacheManager.cache self' !! k = Some e <->
       CacheManager.cache self !! k = Some e /\ now <= CacheManager.expires_at e) /\
    (n + size (CacheManager.cache self') = size (CacheManager.cache self))%nat /\
    CacheManager.cleanup_expired now self' = (Ok 0%nat, self').
Proof.
  do 2 eexists. split; [apply mirror_cleanup_expired_run|].
  destruct self as [bk ttl m]. simpl. split; [|split].
  - intros k e. rewrite map_lookup_filter_Some. simpl. unfold entry_valid_at.
    now rewrite Z.leb_le.
  - apply (mirror_size_after_cleanup now (CacheManager.mk bk ttl m)).
  - rewrite mirror_cleanup_expired_run. simpl.
    set (m' := filter (fun kv => entry_valid_at now (snd kv) = true) m).
    assert (Hall : forall k e, m' !! k = Some e -> entry_valid_at now e = true).
    { intros k e [_ H]%map_lookup_filter_Some. exact H. }
    assert (Hnil : List.filter (fun kv => negb (entry_valid_at now (snd kv)))
                     (map_to_list m') = []).
    { assert (HF : Forall (fun kv => entry_valid_at now (snd kv) = true) (map_to_list m')).
      { apply Forall_forall. intros [k e] Hin. apply (Hall k).
        now apply elem_of_map_to_list. }
      induction HF as [|kv l Hkv _ IH]; [reflexivity|]. simpl. now rewrite Hkv. }
    rewrite Hnil. simpl. f_equal. unfold CacheManager.set_cache. simpl. f_equal.
    apply map_filter_id. intros k e He. simpl. now apply (Hall k).
Qed.

(** X12: [get_all] and the sweep agree.  [get_all] returns the entries that
    have not expired at the clock, without changing the mirror (it deletes
    nothing, unlike [get_segment]); after a sweep at the same instant it
    returns the same dictionary, which is then the whole mirror. *)
Theorem mirror_get_all_is_what_a_sweep_keeps (self : CacheManager.t) (now : datetime) :
  exists valid,
    CacheManager.get_all now self = (Ok valid, self) /\
    (forall k e, valid !! k = Some e <->
       CacheManager.cache self !! k = Some e /\ now <= CacheManager.expires_at e) /\
    CacheManager.cache (snd (CacheManager.cleanup_expired now self)) = valid /\
    fst (CacheManager.get_all now (snd (CacheManager.cleanup_expired now self))) =
      Ok valid.
Proof.
  eexists. split; [apply mirror_get_all_run|]. split; [|split].
  - intros k e. rewrite map_lookup_filter_Some. simpl. unfold entry_valid_at.
    now rewrite Z.leb_le.
  - rewrite mirror_cleanup_expired_run. destruct self; reflexivity.
  - rewrite mirror_cleanup_expired_run, mirror_get_all_run. simpl. f_equal.
    destruct self as [bk ttl m]. simpl.
    apply map_filter_id. intros k e [_ H]%map_lookup_filter_Some. exact H.
Qed.



(** X18: clearing the mirror.  After [clear] the mirror is empty whatever it
    held: [size] answers 0, [get_segment] answers [None] for every key at
    every instant and deletes nothing, [get_all] answers the empty dictionary
    and a sweep removes nothing. *)
Theorem cleared_mirror_is_empty (self : CacheManager.t) (now t' : datetime) (k : string) :
  let cleared := snd (CacheManager.clear now self) in
  CacheManager.size t' cleared = (Ok 0%nat, cleared) /\
  CacheManager.get_segment k t' cleared = (Ok None, cleared) /\
  CacheManager.get_all t' cleared = (Ok ∅, cleared) /\
  CacheManager.cleanup_expired t' cleared = (Ok 0%nat, cleared).
Proof.
  intros cleared. unfold cleared. destruct self as [bk ttl m]. simpl.
  split; [reflexivity|]. split; [|split].
  - rewrite get_segment_run. reflexivity.
  - rewrite mirror_get_all_run. simpl. now rewrite map_filter_empty.
  - rewrite mirror_cleanup_expired_run. simpl. rewrite map_to_list_empty. simpl.
    unfold CacheManager.set_cache. simpl. now rewrite map_filter_empty.
Qed.

(** ** The handlers *)

Lemma fgt_fin (a b : Q) : fgt (Fin a) (Fin b) = true <-> (b < a)%Q.
Proof.
  simpl. rewrite (Qgt_alt a b).
  destruct (a ?= b)%Q; split; intros H; (reflexivity || discriminate).
Qed.

Lemma fgt_fin_false (a b : Q) : fgt (Fin a) (Fin b) = false <-> (a <= b)%Q.
Proof.
  rewrite <- not_true_iff_false, fgt_fin. split.
  - apply Qnot_lt_le.
  - apply Qle_not_lt.
Qed.

(** X14: the colour bands.  [score_to_color] gives green exactly above 0.7,
    red exactly at or below 0.4, yellow between (0.7 itself is yellow, 0.4
    itself red); a higher score never gets a worse colour; and nan, which
    compares false with everything, is red. *)
Theorem score_to_color_bands :
  (forall q : Q, score_to_color (Fin q) = "green" <-> (7 # 10 < q)%Q) /\
  (forall q : Q, score_to_color (Fin q) = "yellow" <-> (4 # 10 < q /\ q <= 7 # 10)%Q) /\
  (forall q : Q, score_to_color (Fin q) = "red" <-> (q <= 4 # 10)%Q) /\
  (forall a b : Q, (a <= b)%Q ->
     (color_rank (score_to_color (Fin a)) <= color_rank (score_to_color (Fin b)))%nat) /\
  score_to_color NaN = "red".
Proof.
  assert (Hcases : forall q : Q,
            ((7 # 10 < q)%Q /\ score_to_color (Fin q) = "green") \/
            ((4 # 10 < q /\ q <= 7 # 10)%Q /\ score_to_color (Fin q) = "yellow") \/
            ((q <= 4 # 10)%Q /\ score_to_color (Fin q) = "red")).
  { intros q. unfold score_to_color.
    destruct (fgt (Fin q) (Fin (7 # 10))) eqn:E1.
    - left. apply fgt_fin in E1. auto.
    - apply fgt_fin_false in E1. destruct (fgt (Fin q) (Fin (4 # 10))) eqn:E2.
      + right; left. apply fgt_fin in E2. auto.
      + right; right. apply fgt_fin_false in E2. auto. }
  split; [|split; [|split; [|split]]].
  - intros q. destruct (Hcases q) as [[H1 E]|[[[H1 H2] E]|[H1 E]]];
      split; intros H; first [assumption | congruence | lra].
  - intros q. destruct (Hcases q) as [[H1 E]|[[[H1 H2] E]|[H1 E]]];
      split; intros H;
      first [assumption | congruence | (split; assumption) | (destruct H; lra)].
  - intros q. destruct (Hcases q) as [[H1 E]|[[[H1 H2] E]|[H1 E]]];
      split; intros H; first [assumption | congruence | lra].
  - intros a b Hab.
    destruct (Hcases a) as [[Ha ->]|[[[Ha1 Ha2] ->]|[Ha ->]]];
      destruct (Hcases b) as [[Hb ->]|[[[Hb1 Hb2] ->]|[Hb ->]]];
      first [(vm_compute; lia) | lra].
  - reflexivity.
Qed.

Lemma score_to_color_bands_witness :
  (color_rank (score_to_color (Fin (4 # 10))) <=
   color_rank (score_to_color (Fin (71 # 100))))%nat.
Proof.
  apply (proj1 (proj2 (proj2 (proj2 score_to_color_bands)))). discriminate.
Defined.

(** ** The history handler *)

(** X15: the history of a segment.  [get_segment_history] changes nothing; it
    raises 404 for a key that is absent and also for limit 0 whatever the key;
    for a key present in a reachable service and a limit of at least 1 it
    responds with the first [limit] samples of the window, oldest first, and
    with their number, the smaller of the limit and the sample count. *)
Theorem history_is_404_or_a_prefix :
  (forall (self : t) (k : string) (limit : Z) (now : datetime),
     buffers self !! k = None ->
     get_segment_history k limit now self = (HTTPException 404, self)) /\
  (forall (self : t) (k : string) (now : datetime),
     get_segment_history k 0 now self = (HTTPException 404, self)) /\
  (forall (self : t) (k : string) (b : SegmentBuffer.t) (limit : Z) (now : datetime),
     reachable self -> buffers self !! k = Some b -> 1 <= limit ->
     get_segment_history k limit now self =
     (Respond (History.mk k
                 (map prediction_dict (take (Z.to_nat limit) (window b)))
                 (Nat.min (Z.to_nat limit) (length (window b)))), self)).
Proof.
  split; [|split].
  - intros self k limit now Habs. unfold get_segment_history.
    rewrite get_recent_predictions_run, Habs. reflexivity.
  - intros self k now. unfold get_segment_history.
    rewrite get_recent_predictions_run. destruct (buffers self !! k); reflexivity.
  - intros self k b limit now Hr Hb Hl. unfold get_segment_history.
    rewrite get_recent_predictions_run, Hb. unfold slice_to.
    replace (0 <=? limit) with true by (symmetry; apply Z.leb_le; lia).
    destruct (reachable_wf self Hr k b Hb) as (_ & _ & Hlen & _).
    destruct (window b) as [|s w] eqn:Ew; [simpl in Hlen; lia|].
    destruct (Z.to_nat limit) as [|n] eqn:En; [lia|].
    simpl. rewrite length_map, length_take. reflexivity.
Qed.

Lemma history_is_404_or_a_prefix_witness :
  get_segment_history "seg_001" 3 20 full_service =
  (Respond (History.mk "seg_001"
              (map prediction_dict
                 (take (Z.to_nat 3) (window (buffer_of "seg_001" full_service))))
              (Nat.min (Z.to_nat 3) (length (window (buffer_of "seg_001" full_service))))),
   full_service).
Proof.
  apply (proj2 (proj2 history_is_404_or_a_prefix)).
  - apply full_service_reachable.
  - apply full_service_buffer.
  - lia.
Defined.

(** ** The route handler *)

Lemma evaluate_segment_run (locals : route_locals) (k : string) (now : datetime)
    (self : t) :
  evaluate_segment locals k now self =
  (Ok (mk_route_locals
         (segment_details locals ++ [route_detail self k])
         (fadd (total_comfort_cost locals) (route_cost self k))
         (fadd (total_time_cost locals) (Fin 1))
         (comfort_scores locals ++ [route_score self k])), self).
Proof.
  unfold evaluate_segment. unfold mbind at 1, M_bind.
  rewrite get_segment_score_run.
  unfold route_detail, route_cost, route_score.
  destruct (buffers self !! k); reflexivity.
Qed.

Lemma evaluate_loop_run (segments : list string) (locals : route_locals)
    (now : datetime) (self : t) :
  for_fold segments locals evaluate_segment now self =
  (Ok (mk_route_locals
         (segment_details locals ++ map (route_detail self) segments)
         (foldl fadd (total_comfort_cost locals) (map (route_cost self) segments))
         (foldl fadd (total_time_cost locals) (map (fun _ => Fin 1) segments))
         (comfort_scores locals ++ map (route_score self) segments)), self).
Proof.
  revert locals. induction segments as [|k l IH]; intros locals.
  - simpl. rewrite !app_nil_r. destruct locals; reflexivity.
  - cbn [for_fold]. unfold mbind at 1, M_bind. rewrite evaluate_segment_run, IH.
    simpl. rewrite <- !app_assoc. reflexivity.
Qed.

Lemma Qsum_complements (qs : list Q) :
  (Qsum (map (fun q => 1 - q) qs) == inject_Z (Z.of_nat (length qs)) - Qsum qs)%Q.
Proof.
  induction qs as [|q qs IH]; [reflexivity|].
  change (Qsum (map (fun q => 1 - q) (q :: qs)))%Q
    with ((1 - q) + Qsum (map (fun q => 1 - q) qs))%Q.
  change (Qsum (q :: qs)) with (q + Qsum qs)%Q.
  change (length (q :: qs)) with (S (length qs)).
  rewrite IH, Nat2Z.inj_succ, <- Z.add_1_l, inject_Z_plus. ring.
Qed.

Lemma Qsum_ones {A} (l : list A) :
  (Qsum (map (fun _ => 1) l) == inject_Z (Z.of_nat (length l)))%Q.
Proof.
  induction l as [|x l IH]; [reflexivity|].
  change (Qsum (map (fun _ => 1) (x :: l)))%Q
    with (1 + Qsum (map (fun _ : A => 1) l))%Q.
  change (length (x :: l)) with (S (length l)).
  rewrite IH, Nat2Z.inj_succ, <- Z.add_1_l, inject_Z_plus. ring.
Qed.

Lemma float_truediv_fin (a : Q) (n : nat) :
  (0 < n)%nat ->
  float_truediv (fin a) (float_of_nat n) = Ok (fin (a / inject_Z (Z.of_nat n))).
Proof.
  intros Hn. unfold float_truediv, float_of_nat.
  assert (Hnz : ~ (inject_Z (Z.of_nat n) == 0)%Q).
  { intros E. apply (Qlt_irrefl 0). rewrite <- E at 2.
    replace 0%Q with (inject_Z 0) by reflexivity. rewrite <- Zlt_Qlt. lia. }
  set (N := inject_Z (Z.of_nat n)) in *.
  assert (HN : Qeq_bool (Qred N) 0 = false)
    by (apply Qeq_bool_false; now rewrite Qred_correct).
  change (feq0 (fin N)) with (Qeq_bool (Qred N) 0). rewrite HN.
  change (fdiv (fin a) (fin N))
    with (if Qeq_bool (Qred N) 0 then finf_of_sign (Qred a ?= 0)%Q
          else fin (Qred a / Qred N)).
  rewrite HN. f_equal. apply fin_eq. now rewrite !Qred_correct.
Qed.

Lemma float_truediv_count (x : pyfloat) (n : nat) :
  (0 < n)%nat -> float_truediv x (float_of_nat n) = Ok (fdiv x (float_of_nat n)).
Proof.
  intros Hn. unfold float_truediv, float_of_nat.
  change (feq0 (fin (inject_Z (Z.of_nat n))))
    with (Qeq_bool (Qred (inject_Z (Z.of_nat n))) 0).
  rewrite Qeq_bool_false; [reflexivity|]. rewrite Qred_correct.
  intros E. apply (Qlt_irrefl 0). rewrite <- E at 2.
  replace 0%Q with (inject_Z 0) by reflexivity. rewrite <- Zlt_Qlt. lia.
Qed.

(** Summing, from [fin a], floats that are finite with known values. *)
Lemma foldl_fadd_values {A} (f : A -> pyfloat) (g : A -> Q) (l : list A) (a : Q) :
  Forall (fun x => exists q, f x = Fin q /\ (q == g x)%Q) l ->
  foldl fadd (fin a) (map f l) = fin (a + Qsum (map g l)).
Proof.
  intros H. revert a. induction H as [|x l [q [Hq Hg]] _ IH]; intros a.
  - simpl. apply fin_eq. symmetry. apply Qplus_0_r.
  - cbn [map foldl]. rewrite Hq.
    change (fadd (fin a) (Fin q)) with (fin (Qred a + q)).
    rewrite IH. apply fin_eq.
    change (Qsum (map g (x :: l))) with (g x + Qsum (map g l))%Q.
    rewrite Qred_correct, Hg. symmetry. apply Qplus_assoc.
Qed.

Lemma route_cost_complement (self : t) (k : string) :
  is_fin (route_score self k) = true ->
  exists q, route_cost self k = Fin q /\ (q == 1 - qval (route_score self k))%Q.
Proof.
  unfold route_score, route_cost. destruct (buffers self !! k) as [b|].
  - destruct (SegmentBuffer.aggregated_score b) as [s| | |]; try discriminate.
    intros _. eexists. split; [reflexivity|]. simpl. now rewrite Qred_correct.
  - intros _. exists (1 # 2). split; reflexivity.
Qed.

Lemma fdiv_fin_count (a : Q) (n : nat) :
  (0 < n)%nat -> fdiv (fin a) (float_of_nat n) = fin (a / inject_Z (Z.of_nat n)).
Proof.
  intros Hn. pose proof (float_truediv_fin a n Hn) as H.
  rewrite float_truediv_count in H by exact Hn. now injection H.
Qed.

Lemma count_nonzero (n : nat) : (0 < n)%nat -> ~ (inject_Z (Z.of_nat n) == 0)%Q.
Proof.
  intros Hn E. apply (Qlt_irrefl 0). rewrite <- E at 2.
  replace 0%Q with (inject_Z 0) by reflexivity. rewrite <- Zlt_Qlt. lia.
Qed.

(** The three averages of a route that is not empty and has finite scores. *)
Lemma route_averages (self : t) (segs : list string) :
  (0 < length segs)%nat ->
  Forall (fun k => is_fin (route_score self k) = true) segs ->
  fdiv (foldl fadd (Fin 0) (map (fun _ => Fin 1) segs)) (float_of_nat (length segs)) =
    Fin 1 /\
  fdiv (foldl fadd (Fin 0) (map (route_cost self) segs)) (float_of_nat (length segs)) =
    fin (1 - route_mean self segs) /\
  fdiv (py_sum (map (route_score self) segs))
    (float_of_nat (length (map (route_score self) segs))) =
    fin (route_mean self segs).
Proof.
  intros Hn Hfin. pose proof (count_nonzero _ Hn) as Hnz.
  unfold py_sum. change (Fin 0) with (fin 0). split; [|split].
  - rewrite (foldl_fadd_values (fun _ : string => Fin 1) (fun _ => 1%Q))
      by (apply Forall_forall; intros; exists 1%Q; split; reflexivity).
    rewrite fdiv_fin_count by exact Hn.
    change (Fin 1) with (fin 1). apply fin_eq. rewrite Qsum_ones. now field.
  - rewrite (foldl_fadd_values (route_cost self)
               (fun k => (1 - qval (route_score self k))%Q)).
    2: { eapply Forall_impl; [exact Hfin|]. intros k' Hk'.
         now apply route_cost_complement. }
    rewrite fdiv_fin_count by exact Hn.
    apply fin_eq. unfold route_mean.
    rewrite <- (map_map (fun k => qval (route_score self k)) (fun q => (1 - q)%Q)).
    rewrite Qsum_complements, length_map. now field.
  - rewrite (foldl_fadd_values (route_score self)
               (fun k => qval (route_score self k))).
    2: { eapply Forall_impl; [exact Hfin|]. intros k' Hk'.
         exists (qval (route_score self k')). split; [|reflexivity].
         now apply is_fin_qval. }
    rewrite length_map, fdiv_fin_count by exact Hn.
    apply fin_eq. unfold route_mean. now field.
Qed.

(** X16: the evaluation of a route.  [evaluate_route] never fails (the one
    division is by the number of segments, or by 1 for the empty route) and
    changes nothing in the service.  It reports one detail per segment of the
    request, in order, an unknown segment counting with score 0.5 and cost
    0.5.  For the empty route the costs are 0 and the average comfort 0.5.
    For a route that is not empty and whose known segments have a finite
    aggregate, the time cost is 1, the average comfort is the mean of the
    scores, the comfort cost is 1 minus that mean, and the total cost is
    [1 * time_weight + (1 - mean) * comfort_weight]. *)
Theorem route_cost_is_one_minus_mean_comfort (self : t) (now : datetime)
    (segments : list string) (time_weight comfort_weight : pyfloat) :
  exists r,
    evaluate_route segments time_weight comfort_weight now self = (Ok r, self) /\
    RouteEvaluation.segments r = map (route_detail self) segments /\
    (segments = [] ->
     RouteEvaluation.time_cost r = Fin 0 /\ RouteEvaluation.comfort_cost r = Fin 0 /\
     RouteEvaluation.average_comfort r = Fin (1 # 2)) /\
    (segments <> [] ->
     Forall (fun k => is_fin (route_score self k) = true) segments ->
     RouteEvaluation.time_cost r = Fin 1 /\
     RouteEvaluation.average_comfort r = fin (route_mean self segments) /\
     RouteEvaluation.comfort_cost r = fin (1 - route_mean self segments) /\
     RouteEvaluation.total_cost r =
       fadd (fmul (Fin 1) time_weight)
         (fmul (fin (1 - route_mean self segments)) comfort_weight)).
Proof.
  unfold evaluate_route. unfold mbind at 1, M_bind. rewrite evaluate_loop_run.
  cbn [segment_details total_comfort_cost total_time_cost comfort_scores app].
  destruct segments as [|k l].
  - eexists. split; [reflexivity|]. split; [reflexivity|]. split.
    + intros _. repeat split.
    + intros H. congruence.
  - cbv iota. cbn [map]. cbv iota.
    change (route_score self k :: map (route_score self) l)
      with (map (route_score self) (k :: l)).
    change (route_cost self k :: map (route_cost self) l)
      with (map (route_cost self) (k :: l)).
    change (Fin 1 :: map (fun _ : string => Fin 1) l)
      with (map (fun _ : string => Fin 1) (k :: l)).
    change (route_detail self k :: map (route_detail self) l)
      with (map (route_detail self) (k :: l)).
    assert (Hn : (0 < length (k :: l))%nat) by (simpl; lia).
    remember (k :: l) as segs eqn:Hsegs.
    unfold mbind at 1, M_bind, lift_result at 1.
    rewrite float_truediv_count by exact Hn.
    unfold mbind at 1, M_bind, lift_result at 1.
    rewrite float_truediv_count by exact Hn.
    unfold mbind at 1, M_bind, lift_result at 1.
    rewrite float_truediv_count by (rewrite length_map; exact Hn).
    eexists. split; [reflexivity|].
    cbn [RouteEvaluation.segments RouteEvaluation.time_cost
         RouteEvaluation.comfort_cost RouteEvaluation.average_comfort
         RouteEvaluation.total_cost].
    split; [reflexivity|]. split; [intros H; congruence|].
    intros _ Hfin. destruct (route_averages self segs Hn Hfin) as (Ht & Hc & Hm).
    rewrite Ht, Hc. split; [reflexivity|]. split; [exact Hm|]. split; reflexivity.
Qed.

Lemma route_cost_is_one_minus_mean_comfort_witness :
  exists r,
    evaluate_route ["seg_001"; "seg_404"] (Fin (1 # 2)) (Fin (1 # 2)) 20 full_service =
      (Ok r, full_service) /\
    RouteEvaluation.time_cost r = Fin 1 /\
    RouteEvaluation.average_comfort r =
      fin (route_mean full_service ["seg_001"; "seg_404"]) /\
    RouteEvaluation.comfort_cost r =
      fin (1 - route_mean full_service ["seg_001"; "seg_404"]).
Proof.
  destruct (route_cost_is_one_minus_mean_comfort full_service 20
              ["seg_001"; "seg_404"] (Fin (1 # 2)) (Fin (1 # 2)))
    as (r & Hr & _ & _ & Hne).
  exists r. split; [exact Hr|].
  destruct Hne as (H1 & H2 & H3 & _); [discriminate | | auto].
  repeat constructor.
Defined.
